(** * ark-root-resolver: a shallow embedding of [ark_root_resolver/main.py]

    The development follows the source file top-down:

    - [PyStr]: the [str] methods the resolver calls ([startswith],
      [removeprefix], [removesuffix], [len]);
    - [PyDict]: Python's insertion-ordered [dict] as an association list,
      with [__setitem__] and [update];
    - [Resolver]: [match_prefix] and the route handler [handle_ark];
    - [Registry]: the cache directory, the clock, the remote registry and
      the two module-level dictionaries, threaded through
      [ensure_up_to_date_naan_registry_cache] as an explicit world.

    Characters are modelled as [ascii]; time stamps (seconds) as [Z]. *)

From Stdlib Require Import List String Ascii Bool Arith ZArith Lia Permutation.
Import ListNotations.

Set Implicit Arguments.

(* ================================================================== *)
(** ** Exceptions and results *)

Inductive exn : Type :=
| KeyError          (* d[k] with k absent *)
| TypeError         (* unpacking None, indexing a non-record *)
| HTTPError         (* httpx transport error or raise_for_status *)
| JSONDecodeError   (* json.load / response.json on a malformed body *)
| FileNotFoundError (* open / stat on a path that is gone *)
.

Inductive result (A : Type) : Type :=
| Return (a : A)
| Raise (e : exn).

Arguments Return {A} a.
Arguments Raise {A} e.

(* ================================================================== *)
(** ** Python [str] methods *)

Module PyStr.
Local Open Scope string_scope.

(** [s.startswith(k)] *)
Definition startswith (s k : string) : bool := String.prefix k s.

(** [s[n:]] *)
Fixpoint drop (n : nat) (s : string) : string :=
  match n, s with
  | O, _ => s
  | S _, EmptyString => EmptyString
  | S n', String _ s' => drop n' s'
  end.

(** [s[:n]] *)
Fixpoint take (n : nat) (s : string) : string :=
  match n, s with
  | O, _ => EmptyString
  | S _, EmptyString => EmptyString
  | S n', String c s' => String c (take n' s')
  end.

(** [s.endswith(suf)] *)
Definition endswith (s suf : string) : bool :=
  Nat.leb (String.length suf) (String.length s)
  && String.eqb (drop (String.length s - String.length suf) s) suf.

(** [s.removeprefix(p)]: [s[len(p):]] when [s] starts with [p], else [s]. *)
Definition removeprefix (s p : string) : string :=
  if startswith s p then drop (String.length p) s else s.

(** [s.removesuffix(suf)]: [s[:-len(suf)]] when [suf] is not empty and [s]
    ends with it, else [s]. *)
Definition removesuffix (s suf : string) : string :=
  if negb (String.eqb suf "") && endswith s suf
  then take (String.length s - String.length suf) s
  else s.

Lemma startswith_app (k r : string) : startswith (k ++ r) k = true.
Proof.
  unfold startswith. induction k as [|c k IH]; simpl.
  - destruct r; reflexivity.
  - destruct (ascii_dec c c) as [_|n]; [exact IH | now destruct n].
Qed.

Lemma startswith_inv (s k : string) :
  startswith s k = true -> s = k ++ drop (String.length k) s.
Proof.
  unfold startswith. revert s.
  induction k as [|c k IH]; intros s H; simpl.
  - reflexivity.
  - destruct s as [|b s]; simpl in H; [discriminate|].
    destruct (ascii_dec c b) as [->|_]; [|discriminate].
    simpl. f_equal. now apply IH.
Qed.

Lemma startswith_iff (s k : string) :
  startswith s k = true <-> exists r, s = k ++ r.
Proof.
  split.
  - intros H. eexists. now apply startswith_inv.
  - intros [r ->]. apply startswith_app.
Qed.

Lemma startswith_empty (s : string) : startswith s "" = true.
Proof. unfold startswith. destruct s; reflexivity. Qed.

Lemma startswith_length (s k : string) :
  startswith s k = true -> String.length k <= String.length s.
Proof.
  unfold startswith. revert s.
  induction k as [|c k IH]; intros s H; simpl; [lia|].
  destruct s as [|b s]; simpl in H; [discriminate|].
  destruct (ascii_dec c b); [|discriminate].
  simpl. apply IH in H. lia.
Qed.

(** Two prefixes of one string that have the same length are the same
    string: this is why a Python dict never holds two different matching
    keys of one length. *)
Lemma startswith_same_length (s a b : string) :
  startswith s a = true -> startswith s b = true ->
  String.length a = String.length b -> a = b.
Proof.
  unfold startswith. revert a b.
  induction s as [|c s IH]; intros a b Ha Hb Hl.
  - destruct a, b; simpl in *; try discriminate; reflexivity.
  - destruct a as [|x a], b as [|y b]; simpl in *; try discriminate;
      try reflexivity.
    destruct (ascii_dec x c) as [->|]; [|discriminate].
    destruct (ascii_dec y c) as [->|]; [|discriminate].
    f_equal. apply IH; auto.
Qed.

Lemma length_app (a b : string) :
  String.length (a ++ b) = String.length a + String.length b.
Proof. induction a; simpl; auto. Qed.

Lemma drop_app (a b : string) : drop (String.length a) (a ++ b) = b.
Proof. induction a; simpl; auto. Qed.

Lemma take_app (a b : string) : take (String.length a) (a ++ b) = a.
Proof. induction a; simpl; [now destruct b | now f_equal]. Qed.

Lemma take_drop (n : nat) (s : string) : take n s ++ drop n s = s.
Proof.
  revert s. induction n as [|n IH]; intros [|c s]; simpl; auto.
  now rewrite IH.
Qed.

Lemma endswith_app (b suf : string) : endswith (b ++ suf) suf = true.
Proof.
  unfold endswith. rewrite length_app.
  replace (String.length b + String.length suf - String.length suf)
    with (String.length b) by lia.
  rewrite drop_app, String.eqb_refl, andb_true_r.
  apply Nat.leb_le. lia.
Qed.

Lemma endswith_inv (s suf : string) :
  endswith s suf = true ->
  s = take (String.length s - String.length suf) s ++ suf.
Proof.
  unfold endswith. intros H. apply andb_prop in H as [_ H].
  apply String.eqb_eq in H.
  set (n := String.length s - String.length suf) in *.
  rewrite <- H. symmetry. apply take_drop.
Qed.

(** [removeprefix] on a string that carries the prefix. *)
Lemma removeprefix_app (p r : string) : removeprefix (p ++ r) p = r.
Proof. unfold removeprefix. now rewrite startswith_app, drop_app. Qed.

(** [removeprefix] on a string that does not. *)
Lemma removeprefix_absent (s p : string) :
  startswith s p = false -> removeprefix s p = s.
Proof. unfold removeprefix. now intros ->. Qed.

(** [removesuffix] on a string that carries the (non-empty) suffix. *)
Lemma removesuffix_app (b suf : string) :
  suf <> "" -> removesuffix (b ++ suf) suf = b.
Proof.
  intros Hne. unfold removesuffix.
  apply String.eqb_neq in Hne. rewrite Hne, endswith_app. simpl.
  rewrite length_app.
  replace (String.length b + String.length suf - String.length suf)
    with (String.length b) by lia.
  apply take_app.
Qed.

(** [removesuffix] on a string that does not. *)
Lemma removesuffix_absent (s suf : string) :
  (forall b, s <> b ++ suf) -> removesuffix s suf = s.
Proof.
  intros H. unfold removesuffix.
  destruct (endswith s suf) eqn:E; [|now rewrite andb_false_r].
  apply endswith_inv in E. now apply H in E.
Qed.

Lemma leb_refl (s : string) : String.leb s s = true.
Proof.
  unfold String.leb.
  destruct (String.compare s s) eqn:E; auto.
  pose proof (String.compare_antisym s s) as A.
  rewrite E in A. discriminate A.
Qed.

End PyStr.

(* ================================================================== *)
(** ** Python's insertion-ordered [dict]

    A dict is its list of items in iteration (insertion) order.  Keys are
    strings.  [wf] is the invariant every Python dict has: no key twice. *)

Module PyDict.

Section Dict.
Variable V : Type.

Definition dict : Type := list (string * V).

Definition keys (d : dict) : list string := map fst d.

Definition wf (d : dict) : Prop := NoDup (keys d).

(** [d.get(k)] *)
Fixpoint get (k : string) (d : dict) : option V :=
  match d with
  | [] => None
  | (k', v) :: d' => if String.eqb k' k then Some v else get k d'
  end.

(** [d[k]], which raises [KeyError] on an absent key. *)
Definition getitem (k : string) (d : dict) : result V :=
  match get k d with
  | Some v => Return v
  | None => Raise KeyError
  end.

(** [d[k] = v]: an existing key keeps its position, a new key goes last. *)
Fixpoint set (k : string) (v : V) (d : dict) : dict :=
  match d with
  | [] => [(k, v)]
  | (k', v') :: d' =>
      if String.eqb k' k then (k', v) :: d' else (k', v') :: set k v d'
  end.

(** [d.update(e)]: [d[k] = v] for each item of [e], in [e]'s order. *)
Definition update (d : dict) (e : list (string * V)) : dict :=
  fold_left (fun acc kv => set (fst kv) (snd kv) acc) e d.

(** [{k: v for (k, v) in items}] *)
Definition of_items (items : list (string * V)) : dict := update [] items.

(** The value of the last item of [e] whose key is [k]. *)
Fixpoint get_last (k : string) (e : list (string * V)) : option V :=
  match e with
  | [] => None
  | (k', v) :: e' =>
      match get_last k e' with
      | Some w => Some w
      | None => if String.eqb k' k then Some v else None
      end
  end.

Lemma get_set_same k v d : get k (set k v d) = Some v.
Proof.
  induction d as [|[k' v'] d IH]; simpl.
  - now rewrite String.eqb_refl.
  - destruct (String.eqb k' k) eqn:E; simpl; now rewrite E.
Qed.

Lemma get_set_other k k' v d : k <> k' -> get k' (set k v d) = get k' d.
Proof.
  intros Hne. induction d as [|[k0 v0] d IH]; simpl.
  - apply String.eqb_neq in Hne. now rewrite Hne.
  - destruct (String.eqb k0 k) eqn:E; simpl.
    + apply String.eqb_eq in E. subst k0.
      apply String.eqb_neq in Hne. now rewrite Hne.
    + now rewrite IH.
Qed.

Lemma get_None_iff k d : get k d = None <-> ~ In k (keys d).
Proof.
  induction d as [|[k' v'] d IH]; simpl.
  - tauto.
  - destruct (String.eqb_spec k' k) as [->|Hne].
    + split; [discriminate | tauto].
    + rewrite IH. tauto.
Qed.

Lemma get_Some_In k v d : get k d = Some v -> In (k, v) d.
Proof.
  induction d as [|[k' v'] d IH]; simpl; [discriminate|].
  destruct (String.eqb_spec k' k) as [->|Hne].
  - intros [= ->]. now left.
  - auto.
Qed.

Lemma In_get k v d : wf d -> In (k, v) d -> get k d = Some v.
Proof.
  unfold wf. induction d as [|[k' v'] d IH]; simpl; [tauto|].
  intros Hnd [[= -> ->]|Hin].
  - now rewrite String.eqb_refl.
  - inversion Hnd as [|? ? Hnotin Hnd']; subst.
    destruct (String.eqb_spec k' k) as [->|Hne].
    + exfalso. apply Hnotin. now apply (in_map fst) in Hin.
    + auto.
Qed.

Lemma keys_set k v d :
  keys (set k v d) =
  match get k d with Some _ => keys d | None => keys d ++ [k] end.
Proof.
  induction d as [|[k' v'] d IH]; simpl; auto.
  destruct (String.eqb k' k) eqn:E; simpl; auto.
  rewrite IH. now destruct (get k d).
Qed.

Lemma In_keys_set k v d k' :
  In k' (keys (set k v d)) <-> k' = k \/ In k' (keys d).
Proof.
  rewrite keys_set. destruct (get k d) eqn:E.
  - split; [tauto|]. intros [->|H]; auto.
    apply get_Some_In in E. now apply (in_map fst) in E.
  - rewrite in_app_iff. simpl. intuition.
Qed.

Lemma wf_set k v d : wf d -> wf (set k v d).
Proof.
  unfold wf. rewrite keys_set. destruct (get k d) eqn:E; auto.
  intros Hnd. apply get_None_iff in E.
  apply NoDup_rev in Hnd. rewrite <- (rev_involutive (keys d ++ [k])).
  apply NoDup_rev. rewrite rev_app_distr. simpl.
  constructor; auto. now rewrite <- in_rev.
Qed.

Lemma wf_update e : forall d, wf d -> wf (update d e).
Proof.
  unfold update. induction e as [|[k v] e IH]; simpl; auto.
  intros d Hd. apply IH. now apply wf_set.
Qed.

Lemma wf_of_items items : wf (of_items items).
Proof. apply wf_update. constructor. Qed.

Lemma In_keys_update k e : forall d,
  In k (keys (update d e)) <-> In k (keys d) \/ In k (map fst e).
Proof.
  unfold update. induction e as [|[k' v'] e IH]; simpl; intros d.
  - tauto.
  - rewrite IH, In_keys_set. intuition.
Qed.

(** [update] reads as: the last item of [e] for a key of [e], the old
    value for any other key. *)
Lemma get_update k e : forall d,
  get k (update d e) =
  match get_last k e with
  | Some w => Some w
  | None => get k d
  end.
Proof.
  unfold update. induction e as [|[k' v'] e IH]; simpl; intros d; auto.
  rewrite IH. destruct (get_last k e); auto.
  destruct (String.eqb_spec k' k) as [->|Hne].
  - apply get_set_same.
  - now apply get_set_other.
Qed.

Lemma get_last_None_iff k e : get_last k e = None <-> ~ In k (map fst e).
Proof.
  induction e as [|[k' v'] e IH]; simpl; [tauto|].
  destruct (get_last k e).
  - split; [discriminate|]. intros H. exfalso.
    destruct (in_dec string_dec k (map fst e)) as [Hin|Hn]; [tauto|].
    apply IH in Hn. discriminate.
  - destruct (String.eqb_spec k' k) as [->|Hne].
    + split; [discriminate | tauto].
    + split; [|reflexivity]. intros _ [H|H]; [auto|]. now apply IH.
Qed.

(** Setting a key to the value it already has changes nothing. *)
Lemma set_same k v d : get k d = Some v -> set k v d = d.
Proof.
  induction d as [|[k' v'] d IH]; simpl; [discriminate|].
  destruct (String.eqb k' k) eqn:E.
  - now intros [= ->].
  - intros H. now rewrite IH.
Qed.

Lemma set_fresh k v d : ~ In k (keys d) -> set k v d = d ++ [(k, v)].
Proof.
  induction d as [|[k' v'] d IH]; simpl; auto.
  intros Hn. destruct (String.eqb_spec k' k) as [->|Hne]; [tauto|].
  rewrite IH; tauto.
Qed.

(** [update] with items the dict already holds changes nothing. *)
Lemma update_absorb e : forall d,
  (forall k v, In (k, v) e -> get k d = Some v) -> update d e = d.
Proof.
  unfold update. induction e as [|[k v] e IH]; simpl; intros d H; auto.
  rewrite set_same by auto. apply IH. auto.
Qed.

Lemma get_last_wf k v e : wf e -> In (k, v) e -> get_last k e = Some v.
Proof.
  unfold wf. induction e as [|[k' v'] e IH]; simpl; [tauto|].
  intros Hnd Hin. inversion Hnd as [|? ? Hnotin Hnd']; subst.
  destruct Hin as [[= -> ->]|Hin].
  - apply get_last_None_iff in Hnotin. rewrite Hnotin.
    now rewrite String.eqb_refl.
  - now rewrite IH.
Qed.

Lemma get_last_get k e : wf e -> get_last k e = get k e.
Proof.
  intros Hwf. destruct (get k e) as [v|] eqn:E.
  - apply get_last_wf; auto. now apply get_Some_In.
  - apply get_last_None_iff. now apply get_None_iff.
Qed.

(** Updating twice with the same dict is updating once. *)
Lemma update_idem d e : wf e -> update (update d e) e = update d e.
Proof.
  intros Hwf. apply update_absorb. intros k v Hin.
  rewrite get_update. erewrite get_last_wf; eauto.
Qed.

Lemma get_of_items k items : get k (of_items items) = get_last k items.
Proof.
  unfold of_items. rewrite get_update. now destruct (get_last k items).
Qed.

Lemma update_app_fresh d : forall acc,
  NoDup (keys acc ++ keys d) -> update acc d = acc ++ d.
Proof.
  unfold update. induction d as [|[k v] d IH]; simpl; intros acc Hnd.
  - now rewrite app_nil_r.
  - rewrite set_fresh.
    + rewrite IH.
      * now rewrite <- app_assoc.
      * unfold keys in *. rewrite map_app, <- app_assoc. exact Hnd.
    + apply NoDup_remove_2 in Hnd. rewrite in_app_iff in Hnd. tauto.
Qed.

(** A dict is the dict of its own items. *)
Lemma of_items_wf d : wf d -> of_items d = d.
Proof. intros Hwf. unfold of_items. now rewrite update_app_fresh. Qed.

End Dict.

End PyDict.

(* ================================================================== *)
(** ** Registry records *)

(** A record's ["target"]: the URL template and the redirect status. *)
Record Target : Type := mkTarget {
  url : string;
  http_code : Z
}.

(** One element of the registry's ["data"] array. *)
Record NaanRecord : Type := mkRecord {
  what : string;
  target : Target
}.

(** Starlette's [RedirectResponse(url, status_code=...)]. *)
Record RedirectResponse : Type := mkRedirect {
  location : string;
  status_code : Z
}.

(* ================================================================== *)
(** ** [match_prefix] and [handle_ark] *)

Module Resolver.
Import PyStr.

Section MatchPrefix.
Variable V : Type.

(** [lambda x: len(x[0])] *)
Definition key_len (x : string * V) : nat := String.length (fst x).

(** The loop of [max(iterable, key=...)] once a first element is in hand:
    a later element replaces the running maximum only when its key is
    strictly greater, so the first maximal element is returned. *)
Fixpoint py_max (key : string * V -> nat) (best : string * V)
         (rest : list (string * V)) : string * V :=
  match rest with
  | [] => best
  | x :: rest' => py_max key (if key best <? key x then x else best) rest'
  end.

(** [[(key, value) for key, value in dictionary.items()
      if input_string.startswith(key)]] *)
Definition matches (input_string : string) (dictionary : PyDict.dict V)
  : list (string * V) :=
  filter (fun kv => startswith input_string (fst kv)) dictionary.

(** [match_prefix(input_string, dictionary)]; [None] is Python's [None]. *)
Definition match_prefix (input_string : string) (dictionary : PyDict.dict V)
  : option (string * V) :=
  match matches input_string dictionary with
  | [] => None
  | m :: ms => Some (py_max key_len m ms)
  end.

Lemma py_max_In key best rest :
  In (py_max key best rest) (best :: rest).
Proof.
  revert best. induction rest as [|x rest IH]; intros best; simpl.
  - now left.
  - destruct (IH (if key best <? key x then x else best)) as [H|H].
    + rewrite <- H. destruct (key best <? key x); auto.
    + auto.
Qed.

Lemma py_max_ge_best key best rest :
  key best <= key (py_max key best rest).
Proof.
  revert best. induction rest as [|x rest IH]; intros best; simpl; auto.
  specialize (IH (if key best <? key x then x else best)).
  destruct (Nat.ltb_spec (key best) (key x)); lia.
Qed.

Lemma py_max_ge key best rest y :
  In y (best :: rest) -> key y <= key (py_max key best rest).
Proof.
  revert best. induction rest as [|x rest IH]; intros best; simpl.
  - intros [->|[]]. lia.
  - intros [->|[->|Hin]].
    + pose proof (py_max_ge_best key (if key y <? key x then x else y) rest).
      destruct (Nat.ltb_spec (key y) (key x)); lia.
    + pose proof (py_max_ge_best key (if key best <? key y then y else best) rest).
      destruct (Nat.ltb_spec (key best) (key y)); lia.
    + apply IH. now right.
Qed.

Lemma matches_In input_string dictionary kv :
  In kv (matches input_string dictionary) <->
  In kv dictionary /\ startswith input_string (fst kv) = true.
Proof. unfold matches. apply filter_In. Qed.

(** What a successful [match_prefix] returns: an item of the dictionary
    whose key is a prefix of the input and at least as long as every other
    key that is. *)
Lemma match_prefix_Some input_string dictionary k v :
  match_prefix input_string dictionary = Some (k, v) ->
  In (k, v) dictionary /\
  startswith input_string k = true /\
  forall k' v', In (k', v') dictionary ->
                startswith input_string k' = true ->
                String.length k' <= String.length k.
Proof.
  unfold match_prefix.
  destruct (matches input_string dictionary) as [|m ms] eqn:E; [discriminate|].
  intros [= H].
  pose proof (py_max_In key_len m ms) as Hin.
  rewrite H, <- E in Hin. apply matches_In in Hin as [Hin Hpre].
  repeat split; auto.
  intros k' v' Hin' Hpre'.
  assert (In (k', v') (m :: ms)) as Hm
      by (rewrite <- E; apply matches_In; auto).
  apply (py_max_ge key_len) in Hm. now rewrite H in Hm.
Qed.

(** [match_prefix] returns [None] exactly when no key is a prefix. *)
Lemma match_prefix_None input_string dictionary :
  match_prefix input_string dictionary = None <->
  forall k, In k (PyDict.keys dictionary) -> startswith input_string k = false.
Proof.
  unfold match_prefix.
  destruct (matches input_string dictionary) as [|m ms] eqn:E.
  - split; [intros _|reflexivity]. intros k Hk.
    apply in_map_iff in Hk as [[k' v'] [<- Hin]].
    destruct (startswith input_string (fst (k', v'))) eqn:Hs; auto.
    assert (In (k', v') (matches input_string dictionary))
      by (apply matches_In; auto).
    rewrite E in H. destruct H.
  - split; [discriminate|]. intros H. exfalso.
    assert (In m (matches input_string dictionary)) as Hm
        by (rewrite E; now left).
    apply matches_In in Hm as [Hin Hpre].
    rewrite (H (fst m)) in Hpre; [discriminate|].
    now apply in_map.
Qed.

End MatchPrefix.

(** The route handler [GET /ark:{identifier:path}], reading the module's
    [ark_root_resolver_map].  Unpacking [what, target = None] raises
    [TypeError]. *)
Definition handle_ark (identifier : string)
           (ark_root_resolver_map : PyDict.dict Target)
  : result RedirectResponse :=
  let identifier :=
    if startswith identifier "/" then removeprefix identifier "/"
    else identifier in
  match match_prefix identifier ark_root_resolver_map with
  | None => Raise TypeError
  | Some (_, target) =>
      let redirect_url :=
        (removesuffix (url target) "${content}" ++ identifier)%string in
      Return (mkRedirect redirect_url (http_code target))
  end.

End Resolver.

(* ================================================================== *)
(** ** The registry cache: files, clock, remote registry, module globals *)

(** A JSON value as the resolver looks at it: an array of records, as the
    registry has under ["data"], or any other value (registry metadata, a
    number, a text), which it never opens and cannot iterate for records. *)
Inductive json : Type :=
| JArray (records : list NaanRecord)
| JOpaque (text : string).

(** The text of a JSON file or of an HTTP body: not JSON at all, or a JSON
    object given by its members as written (a key may occur twice in the
    text; [json.load] keeps the last). *)
Inductive Body : Type :=
| Malformed
| Object (members : list (string * json)).

(** A file [DATA_DIR / "data_<name>.json"]; [name] is the second it was
    written in, as [strftime("%Y%m%d_%H%M%S")] prints it. *)
Record CacheFile : Type := mkFile {
  name : Z;
  st_mtime : Z;
  body : Body
}.

Definition Path : Type := Z.

Record World : Type := mkWorld {
  clock : Z;                                (* datetime.now(utc).timestamp() *)
  data_dir : list CacheFile;                (* DATA_DIR, in glob order *)
  remote : string -> result Body;           (* what a GET of a URL gives *)
  requests : nat;                           (* GETs issued so far *)
  naan_registry_cache : PyDict.dict json;   (* module global *)
  ark_root_resolver_map : PyDict.dict Target (* module global *)
}.

Module Registry.

(** *** State and exceptions *)

Definition M (A : Type) : Type := World -> result A * World.

Definition ret {A} (a : A) : M A := fun w => (Return a, w).

Definition raise {A} (e : exn) : M A := fun w => (Raise e, w).

Definition bind {A B} (m : M A) (k : A -> M B) : M B :=
  fun w =>
    match m w with
    | (Return a, w') => k a w'
    | (Raise e, w') => (Raise e, w')
    end.

(** [try: m except Exception: h], followed by [k] when [m] did not raise.
    What [m] wrote before raising stays written. *)
Definition try_with {A B} (m : M A) (h : exn -> M B) (k : A -> M B) : M B :=
  fun w =>
    match m w with
    | (Return a, w') => k a w'
    | (Raise e, w') => h e w'
    end.

Notation "x <- m ;; k" := (bind m (fun x => k))
  (at level 61, m at next level, right associativity).
Notation "m ;;; k" := (bind m (fun _ => k))
  (at level 61, right associativity).

(** *** Field updates *)

Definition with_data_dir (d : list CacheFile) (w : World) : World :=
  mkWorld (clock w) d (remote w) (requests w)
          (naan_registry_cache w) (ark_root_resolver_map w).

Definition with_requests (n : nat) (w : World) : World :=
  mkWorld (clock w) (data_dir w) (remote w) n
          (naan_registry_cache w) (ark_root_resolver_map w).

Definition with_naan_registry_cache (c : PyDict.dict json) (w : World) : World :=
  mkWorld (clock w) (data_dir w) (remote w) (requests w)
          c (ark_root_resolver_map w).

Definition with_ark_root_resolver_map (m : PyDict.dict Target) (w : World)
  : World :=
  mkWorld (clock w) (data_dir w) (remote w) (requests w)
          (naan_registry_cache w) m.

(** *** The file system *)

(** [p.stat()] / [open(p)]: the directory entry of that name. *)
Fixpoint stat (p : Path) (dir : list CacheFile) : option CacheFile :=
  match dir with
  | [] => None
  | f :: dir' => if Z.eqb (name f) p then Some f else stat p dir'
  end.

(** [open(p, "w")] and write: an entry of that name is replaced where it
    stands, a new one goes last. *)
Fixpoint write (f : CacheFile) (dir : list CacheFile) : list CacheFile :=
  match dir with
  | [] => [f]
  | g :: dir' => if Z.eqb (name g) (name f) then f :: dir' else g :: write f dir'
  end.

(** [max(cache_files, key=lambda p: p.stat().st_mtime)] from its second
    element on: as in [Resolver.py_max], the first maximum wins. *)
Fixpoint max_mtime (best : CacheFile) (rest : list CacheFile) : CacheFile :=
  match rest with
  | [] => best
  | f :: rest' =>
      max_mtime (if Z.ltb (st_mtime best) (st_mtime f) then f else best) rest'
  end.

(** [json.load]: the dict of a JSON object, a later member overwriting an
    earlier one of the same key. *)
Definition json_load (b : Body) : result (PyDict.dict json) :=
  match b with
  | Malformed => Raise JSONDecodeError
  | Object members => Return (PyDict.of_items members)
  end.

(** *** The functions of [main.py] *)

(** A function that only looks at the world, as a step of [M]. *)
Definition read {A} (f : World -> A) : M A := fun w => (Return (f w), w).

Definition get_latest_naan_registry_cache_file (w : World) : option Path :=
  match data_dir w with
  | [] => None
  | f :: fs => Some (name (max_mtime f fs))
  end.

Definition is_cache_valid (cache_file : Path) (interval_seconds : Z)
           (w : World) : bool :=
  match stat cache_file (data_dir w) with
  | None => false
  | Some f =>
      let file_age := (clock w - st_mtime f)%Z in
      Z.ltb file_age interval_seconds
  end.

Definition load_from_cache (cache_file : Path) : M (PyDict.dict json) :=
  fun w =>
    match stat cache_file (data_dir w) with
    | None => (Raise FileNotFoundError, w)
    | Some f => (json_load (body f), w)
    end.

Definition save_data_to_cache (data : PyDict.dict json) : M Path :=
  fun w =>
    let timestamp := clock w in
    (Return timestamp,
     with_data_dir (write (mkFile timestamp (clock w) (Object data))
                          (data_dir w)) w).

Definition download_json_data_from_url_to_dict (url : string)
  : M (PyDict.dict json) :=
  fun w =>
    let w' := with_requests (S (requests w)) w in
    match remote w url with
    | Raise e => (Raise e, w')
    | Return b => (json_load b, w')
    end.

(** [sorted(l, key=key, reverse=True)] is stable: among equal keys the
    original order is kept.  Insertion from the right: an element passes
    the strictly larger ones and stops in front of the first that is not. *)
Fixpoint insert_desc {A} (key : A -> nat) (x : A) (l : list A) : list A :=
  match l with
  | [] => [x]
  | y :: l' => if Nat.ltb (key x) (key y) then y :: insert_desc key x l'
               else x :: l
  end.

Definition sorted_desc {A} (key : A -> nat) (l : list A) : list A :=
  fold_right (insert_desc key) [] l.

(** The dict comprehension of [update_ark_root_resolver_map]. *)
Definition resolver_items (records : list NaanRecord) : list (string * Target) :=
  map (fun record => (what record, target record))
      (sorted_desc (fun record => String.length (what record)) records).

Definition update_ark_root_resolver_map : M unit :=
  fun w =>
    match PyDict.getitem "data" (naan_registry_cache w) with
    | Raise e => (Raise e, w)
    | Return (JOpaque _) => (Raise TypeError, w)
    | Return (JArray records) =>
        (Return tt,
         with_ark_root_resolver_map
           (PyDict.update (ark_root_resolver_map w)
                          (PyDict.of_items (resolver_items records))) w)
    end.

(** [naan_registry_cache.update(data)] *)
Definition naan_registry_cache_update (data : PyDict.dict json) : M unit :=
  fun w =>
    (Return tt,
     with_naan_registry_cache (PyDict.update (naan_registry_cache w) data) w).

(** Lines 79-83: the test [not force_download and cache_file and
    is_cache_valid(cache_file, interval_seconds)]. *)
Definition use_cache (interval_seconds : Z) (force_download : bool)
           (cache_file : option Path) (w : World) : bool :=
  match cache_file with
  | Some p => negb force_download && is_cache_valid p interval_seconds w
  | None => false
  end.

(** Lines 79-92: the [if]/[else] that binds [data], and rebinds
    [cache_file] after a download. *)
Definition obtain_data (url : string) (interval_seconds : Z)
           (force_download : bool) (cache_file : option Path)
  : M (PyDict.dict json * option Path) :=
  use <- read (use_cache interval_seconds force_download cache_file) ;;
  match use, cache_file with
  | true, Some p =>
      data <- load_from_cache p ;;
      ret (data, cache_file)
  | _, _ =>
      data <- download_json_data_from_url_to_dict url ;;
      p' <- save_data_to_cache data ;;
      ret (data, Some p')
  end.

(** Lines 94-96. *)
Definition publish (data : PyDict.dict json) : M unit :=
  naan_registry_cache_update data ;;;
  update_ark_root_resolver_map.

(** Lines 98-103: the [except Exception] handler. *)
Definition fallback (cache_file : option Path) : M unit :=
  fun w =>
    match cache_file with
    | Some p =>
        match stat p (data_dir w) with
        | Some _ =>
            (data <- load_from_cache p ;; naan_registry_cache_update data) w
        | None => (Return tt, w)
        end
    | None => (Return tt, w)
    end.

Definition default_url : string :=
  "https://cdluc3.github.io/naan_reg_priv/naan_records.json".

Definition default_interval : Z := 60 * 60 * 24.

Definition ensure_up_to_date_naan_registry_cache
           (url : string) (interval_seconds : Z) (force_download : bool)
  : M unit :=
  cache_file <- read get_latest_naan_registry_cache_file ;;
  try_with (obtain_data url interval_seconds force_download cache_file)
           (fun _ => fallback cache_file)
           (fun '(data, cache_file') =>
              try_with (publish data)
                       (fun _ => fallback cache_file')
                       ret).

(** The world the module starts in: both globals are [{}]. *)
Definition startup (now : Z) (dir : list CacheFile)
           (net : string -> result Body) : World :=
  mkWorld now dir net 0 [] [].

(** Between two calls the clock moves and the remote may answer
    differently; the process state and the directory stay. *)
Definition elapse (now : Z) (net : string -> result Body) (w : World) : World :=
  mkWorld now (data_dir w) net (requests w)
          (naan_registry_cache w) (ark_root_resolver_map w).

End Registry.

(* ================================================================== *)
(** * Properties of the resolver *)

Section ResolverProperties.
Import PyStr Resolver.
Local Open Scope string_scope.

(** The maps and targets of the spec's examples. *)
Definition example_target : Target :=
  mkTarget "https://example.org/${content}" 302.

Definition T1 : Target := mkTarget "https://t1.example/${content}" 301.
Definition T2 : Target := mkTarget "https://t2.example/${content}" 302.
Definition T3 : Target := mkTarget "https://t3.example/${content}" 303.

Definition example_map : PyDict.dict Target :=
  [("12025", T1); ("120", T2); ("1202", T3)].

(** Without a matching key [match_prefix] returns [None] and the handler
    raises on the unpacking, whatever the map. *)
Lemma handle_ark_no_match (identifier : string) (m : PyDict.dict Target) :
  (forall k, In k (PyDict.keys m) -> startswith identifier k = false) ->
  startswith identifier "/" = false ->
  match_prefix identifier m = None /\
  handle_ark identifier m = Raise TypeError.
Proof.
  intros Hnone Hslash.
  assert (match_prefix identifier m = None) as Hm
      by now apply match_prefix_None.
  split; [exact Hm|].
  unfold handle_ark. now rewrite Hslash, Hm.
Qed.

(** C1 (the handler at an identifier no key is a prefix of): on the map
    with the single key "12025" and the identifier "00000/x",
    [match_prefix] returns [None] and [handle_ark] ends in an uncaught
    [TypeError]; it builds no response, neither a redirect nor a 404. *)
Theorem handle_ark_unmatched_identifier_raises :
  (forall k, In k (PyDict.keys [("12025", example_target)]) ->
             startswith "00000/x" k = false) /\
  match_prefix "00000/x" [("12025", example_target)] = None /\
  handle_ark "00000/x" [("12025", example_target)] = Raise TypeError /\
  handle_ark "00000/x" [] = Raise TypeError.
Proof.
  repeat split.
  intros k [<-|[]]. reflexivity.
Qed.

(** C6 (longest prefix): when [match_prefix] returns the key [k], the
    identifier starts with [k] and no strictly longer key of the map is a
    prefix of the identifier. *)
Theorem match_prefix_longest :
  forall (V : Type) (M : PyDict.dict V) (I k : string) (v : V),
    match_prefix I M = Some (k, v) ->
    In (k, v) M /\
    startswith I k = true /\
    forall k', In k' (PyDict.keys M) ->
               String.length k < String.length k' ->
               startswith I k' = false.
Proof.
  intros V M I k v H.
  apply match_prefix_Some in H as (Hin & Hpre & Hmax).
  repeat split; auto.
  intros k' Hk' Hlt.
  apply in_map_iff in Hk' as [[k0 v0] [Heq Hin0]]. simpl in Heq. subst k0.
  destruct (startswith I k') eqn:E; auto.
  specialize (Hmax _ _ Hin0 E). lia.
Qed.

Lemma match_prefix_longest_witness :
  In ("12025", T1) example_map /\
  startswith "120259/x1" "12025" = true /\
  forall k', In k' (PyDict.keys example_map) ->
             String.length "12025" < String.length k' ->
             startswith "120259/x1" k' = false.
Proof.
  apply (@match_prefix_longest Target example_map "120259/x1" "12025" T1).
  reflexivity.
Defined.

(** C2 (tie-break and determinism): the key [match_prefix] returns is
    lexicographically smallest among the keys of its length that are
    prefixes of the identifier, and the returned item is the same for
    every iteration order of the dict. *)
Theorem match_prefix_order_independent :
  forall (V : Type) (M M' : PyDict.dict V) (I k : string) (v : V),
    PyDict.wf M ->
    Permutation M M' ->
    match_prefix I M = Some (k, v) ->
    (forall k', In k' (PyDict.keys M) ->
                startswith I k' = true ->
                String.length k' = String.length k ->
                String.leb k k' = true) /\
    match_prefix I M' = Some (k, v).
Proof.
  intros V M M' I k v Hwf Hperm H.
  apply match_prefix_Some in H as (Hin & Hpre & Hmax).
  split.
  - intros k' _ Hpre' Hlen.
    rewrite (startswith_same_length I k' k Hpre' Hpre Hlen).
    apply leb_refl.
  - destruct (match_prefix I M') as [[k2 v2]|] eqn:E.
    + apply match_prefix_Some in E as (Hin2 & Hpre2 & Hmax2).
      assert (In (k, v) M') as HinM' by (eapply Permutation_in; eauto).
      assert (In (k2, v2) M) as HinM
          by (eapply Permutation_in; [apply Permutation_sym|]; eauto).
      pose proof (Hmax2 _ _ HinM' Hpre) as L1.
      pose proof (Hmax _ _ HinM Hpre2) as L2.
      assert (k2 = k) as ->
          by (apply (startswith_same_length I); auto; lia).
      pose proof (PyDict.In_get k v Hwf Hin) as G1.
      pose proof (PyDict.In_get k v2 Hwf HinM) as G2.
      congruence.
    + exfalso.
      pose proof (proj1 (match_prefix_None I M') E k) as Hn.
      rewrite Hn in Hpre; [discriminate|].
      apply in_map_iff. exists (k, v). split; auto.
      eapply Permutation_in; eauto.
Qed.

Lemma match_prefix_order_independent_witness :
  (forall k', In k' (PyDict.keys example_map) ->
              startswith "120259/x1" k' = true ->
              String.length k' = String.length "12025" ->
              String.leb "12025" k' = true) /\
  match_prefix "120259/x1" [("120", T2); ("1202", T3); ("12025", T1)]
  = Some ("12025", T1).
Proof.
  apply (@match_prefix_order_independent Target example_map
           [("120", T2); ("1202", T3); ("12025", T1)] "120259/x1" "12025" T1).
  - unfold PyDict.wf. simpl.
    repeat constructor; simpl; intuition discriminate.
  - apply Permutation_sym. apply perm_trans with
      [("120", T2); ("12025", T1); ("1202", T3)].
    + apply perm_skip. apply perm_swap.
    + apply perm_swap.
  - reflexivity.
Defined.

(** C7 (redirect construction): with [identifier] the raw identifier less
    at most one leading "/" and [base] the target's url less a trailing
    "${content}", a matched request is answered with the redirect to
    [base ++ identifier], the whole identifier, under the target's
    [http_code]. *)
Theorem handle_ark_redirect :
  forall (M : PyDict.dict Target) (raw identifier k : string) (t : Target),
    raw = "/" ++ identifier \/
    (startswith raw "/" = false /\ identifier = raw) ->
    match_prefix identifier M = Some (k, t) ->
    exists base,
      (url t = base ++ "${content}" \/
       ((forall b, url t <> b ++ "${content}") /\ base = url t)) /\
      handle_ark raw M =
      Return (mkRedirect (base ++ identifier) (http_code t)).
Proof.
  intros M raw identifier k t Hstrip Hmatch.
  assert ((if startswith raw "/" then removeprefix raw "/" else raw)
          = identifier) as Hid.
  { destruct Hstrip as [->|[Hno ->]].
    - now rewrite startswith_app, removeprefix_app.
    - now rewrite Hno. }
  exists (removesuffix (url t) "${content}"). split.
  - unfold removesuffix.
    destruct (endswith (url t) "${content}") eqn:E; simpl.
    + left. exact (endswith_inv _ _ E).
    + right. split; auto. intros b Hb.
      rewrite Hb, endswith_app in E. discriminate.
  - unfold handle_ark. rewrite Hid, Hmatch. reflexivity.
Qed.

Lemma handle_ark_redirect_witness :
  exists base,
    (url example_target = base ++ "${content}" \/
     ((forall b, url example_target <> b ++ "${content}") /\
      base = url example_target)) /\
    handle_ark "12025/x1" [("12025", example_target)] =
    Return (mkRedirect (base ++ "12025/x1") (http_code example_target)).
Proof.
  apply (@handle_ark_redirect [("12025", example_target)]
           "12025/x1" "12025/x1" "12025" example_target).
  - right. split; reflexivity.
  - reflexivity.
Defined.

(** The spec's redirect example, evaluated. *)
Example handle_ark_example :
  handle_ark "12025/x1" [("12025", example_target)]
  = Return (mkRedirect "https://example.org/12025/x1" 302)
  /\ handle_ark "/12025/x1" [("12025", example_target)]
  = Return (mkRedirect "https://example.org/12025/x1" 302).
Proof. split; reflexivity. Qed.

(** C10 (empty key): a map that has the key "" matches every identifier,
    so [match_prefix] never returns [None] on it and the handler always
    answers with a redirect. *)
Theorem match_prefix_empty_key_always_matches :
  forall (M : PyDict.dict Target) (I : string),
    In "" (PyDict.keys M) ->
    (exists k t, match_prefix I M = Some (k, t)) /\
    (exists r, handle_ark I M = Return r).
Proof.
  intros M I Hin.
  assert (forall J, exists k t, match_prefix J M = Some (k, t)) as Hall.
  { intros J. destruct (match_prefix J M) as [[k t]|] eqn:E; eauto.
    pose proof (proj1 (match_prefix_None J M) E "" Hin) as Hn.
    rewrite startswith_empty in Hn. discriminate. }
  split; [apply Hall|].
  unfold handle_ark.
  destruct (Hall (if startswith I "/" then removeprefix I "/" else I))
    as (k & t & ->).
  eauto.
Qed.

Lemma match_prefix_empty_key_always_matches_witness :
  (exists k t, match_prefix "00000/x" [("12025", T1); ("", T2)]
               = Some (k, t)) /\
  (exists r, handle_ark "00000/x" [("12025", T1); ("", T2)] = Return r).
Proof.
  apply (@match_prefix_empty_key_always_matches
           [("12025", T1); ("", T2)] "00000/x").
  simpl. auto.
Defined.

End ResolverProperties.

(* ================================================================== *)
(** * Properties of the registry cache *)

Section RegistryProperties.
Import Registry.
Local Open Scope string_scope.
Local Open Scope Z_scope.

(** *** The stable sort and the dict comprehension *)

Section Stable.
Variables (A : Type) (key : A -> nat) (p : A -> bool).
Hypothesis p_same_key :
  forall x y, p x = true -> p y = true -> key x = key y.

Lemma filter_insert_desc x l :
  filter p (insert_desc key x l) =
  if p x then x :: filter p l else filter p l.
Proof.
  induction l as [|y l IH]; simpl; auto.
  destruct (Nat.ltb_spec (key x) (key y)) as [Hlt|Hge]; simpl; auto.
  rewrite IH. destruct (p x) eqn:Px, (p y) eqn:Py; auto.
  pose proof (p_same_key Px Py). lia.
Qed.

(** Sorting does not reorder the elements a key-respecting test selects. *)
Lemma filter_sorted_desc l : filter p (sorted_desc key l) = filter p l.
Proof.
  induction l as [|x l IH]; simpl; auto.
  rewrite filter_insert_desc, IH. reflexivity.
Qed.

End Stable.

Definition item_of (record : NaanRecord) : string * Target :=
  (what record, target record).

Definition has_what (k : string) (record : NaanRecord) : bool :=
  String.eqb (what record) k.

Lemma get_last_items_filter k l :
  PyDict.get_last k (map item_of l) =
  PyDict.get_last k (map item_of (filter (has_what k) l)).
Proof.
  induction l as [|x l IH]; simpl; auto.
  unfold has_what at 1. destruct (String.eqb (what x) k) eqn:E; simpl.
  - now rewrite IH, E.
  - rewrite IH.
    now destruct (PyDict.get_last k (map item_of (filter (has_what k) l))).
Qed.

Lemma get_last_items_snoc k l r :
  what r = k ->
  PyDict.get_last k (map item_of (l ++ [r])) = Some (target r).
Proof.
  intros <-. induction l as [|x l IH]; simpl.
  - now rewrite String.eqb_refl.
  - now rewrite IH.
Qed.

Lemma get_last_items_absent k l :
  ~ In k (map what l) -> PyDict.get_last k (map item_of l) = None.
Proof.
  intros H. apply PyDict.get_last_None_iff.
  now rewrite map_map.
Qed.

Lemma resolver_items_keys records k :
  In k (map fst (resolver_items records)) <-> In k (map what records).
Proof.
  unfold resolver_items. rewrite map_map. simpl.
  assert (forall l : list NaanRecord, In k (map what
            (sorted_desc (fun r => String.length (what r)) l))
          <-> In k (map what l)) as H.
  { induction l as [|x l IH]; simpl; [tauto|].
    rewrite <- IH. clear IH.
    generalize (sorted_desc (fun r => String.length (what r)) l) as s.
    induction s as [|y s IHs]; simpl; [tauto|].
    destruct (Nat.ltb _ _); simpl; [rewrite IHs|]; tauto. }
  apply H.
Qed.

(** The value the comprehension gives a key: the target of the last record
    of the snapshot that carries it. *)
Lemma get_resolver_items pre r post :
  (forall r', In r' post -> what r' <> what r) ->
  PyDict.get (what r) (PyDict.of_items (resolver_items (pre ++ r :: post)))
  = Some (target r).
Proof.
  intros Hpost.
  rewrite PyDict.get_of_items. unfold resolver_items.
  change (fun record => (what record, target record)) with item_of.
  rewrite get_last_items_filter.
  rewrite (@filter_sorted_desc NaanRecord
             (fun record => String.length (what record))
             (has_what (what r))).
  - rewrite filter_app. simpl. unfold has_what at 2.
    rewrite String.eqb_refl.
    replace (filter (has_what (what r)) post) with (@nil NaanRecord).
    + apply get_last_items_snoc. reflexivity.
    + symmetry. induction post as [|y post IH]; simpl; auto.
      unfold has_what at 1.
      destruct (String.eqb_spec (what y) (what r)) as [E|_].
      * exfalso. apply (Hpost y); simpl; auto.
      * apply IH. intros r' Hr'. apply Hpost. now right.
  - unfold has_what. intros x y Hx Hy.
    apply String.eqb_eq in Hx, Hy. congruence.
Qed.

(** *** Stepping the module's functions *)

Lemma with_naan_registry_cache_same w :
  with_naan_registry_cache (naan_registry_cache w) w = w.
Proof. now destruct w. Qed.

Lemma with_ark_root_resolver_map_same w :
  with_ark_root_resolver_map (ark_root_resolver_map w) w = w.
Proof. now destruct w. Qed.

(** [update_ark_root_resolver_map] on a cache whose ["data"] is an array. *)
Lemma update_ark_root_resolver_map_records w records :
  PyDict.get "data" (naan_registry_cache w) = Some (JArray records) ->
  update_ark_root_resolver_map w =
  (Return tt,
   with_ark_root_resolver_map
     (PyDict.update (ark_root_resolver_map w)
                    (PyDict.of_items (resolver_items records))) w).
Proof.
  intros H. unfold update_ark_root_resolver_map, PyDict.getitem.
  now rewrite H.
Qed.

(** C9 (duplicate keys): when the cache's ["data"] holds a record [r] with
    no later record of the same [what], rebuilding the resolver map gives
    the key [what r] the target of [r], whatever earlier records of that
    key say. *)
Theorem update_ark_root_resolver_map_last_wins :
  forall (w : World) (pre post : list NaanRecord) (r : NaanRecord),
    PyDict.get "data" (naan_registry_cache w)
    = Some (JArray (pre ++ r :: post)) ->
    (forall r', In r' post -> what r' <> what r) ->
    exists w',
      update_ark_root_resolver_map w = (Return tt, w') /\
      PyDict.get (what r) (ark_root_resolver_map w') = Some (target r).
Proof.
  intros w pre post r Hdata Hpost.
  eexists. split.
  - apply update_ark_root_resolver_map_records. exact Hdata.
  - simpl. rewrite PyDict.get_update.
    rewrite PyDict.get_last_get by apply PyDict.wf_of_items.
    now rewrite get_resolver_items.
Qed.

Definition duplicate_records : list NaanRecord :=
  [ mkRecord "12025" T1; mkRecord "1202599" T2;
    mkRecord "12025" T3; mkRecord "99" T2 ].

Lemma update_ark_root_resolver_map_last_wins_witness :
  exists w',
    update_ark_root_resolver_map
      (mkWorld 0 [] (fun _ => Raise HTTPError) 0
               [("data", JArray duplicate_records)] [("12025", T2)])
    = (Return tt, w') /\
    PyDict.get "12025" (ark_root_resolver_map w') = Some T3.
Proof.
  apply (@update_ark_root_resolver_map_last_wins
           (mkWorld 0 [] (fun _ => Raise HTTPError) 0
                    [("data", JArray duplicate_records)] [("12025", T2)])
           [mkRecord "12025" T1; mkRecord "1202599" T2]
           [mkRecord "99" T2]
           (mkRecord "12025" T3)).
  - reflexivity.
  - intros r' [<-|[]]. simpl. discriminate.
Defined.

(** *** The refresh, path by path *)

(** A remote that cannot be reached, and remotes that serve a snapshot. *)
Definition unreachable : string -> result Body := fun _ => Raise HTTPError.

Definition serving (records : list NaanRecord) : string -> result Body :=
  fun _ => Return (Object [("data", JArray records)]).

Definition snapshot_a : list NaanRecord := [mkRecord "12025" T1].
Definition snapshot_b : list NaanRecord := [mkRecord "99999" T2].

Definition stale_file : CacheFile :=
  mkFile 0 0 (Object [("data", JArray snapshot_a)]).

(** The handler never writes the resolver map. *)
Lemma fallback_keeps_resolver_map cache_file w :
  ark_root_resolver_map (snd (fallback cache_file w))
  = ark_root_resolver_map w.
Proof.
  unfold fallback. destruct cache_file as [p|]; auto.
  destruct (stat p (data_dir w)) as [f|] eqn:E; auto.
  unfold bind, load_from_cache. rewrite E.
  destruct (json_load (body f)); reflexivity.
Qed.

Lemma json_load_wf b data : json_load b = Return data -> PyDict.wf data.
Proof.
  destruct b; simpl; [discriminate|].
  intros [= <-]. apply PyDict.wf_of_items.
Qed.

(** What [obtain_data] hands over is a dict, and it leaves the module
    globals alone. *)
Lemma obtain_data_inv url i force cache_file w data cache_file' w1 :
  obtain_data url i force cache_file w = (Return (data, cache_file'), w1) ->
  PyDict.wf data /\
  naan_registry_cache w1 = naan_registry_cache w /\
  ark_root_resolver_map w1 = ark_root_resolver_map w.
Proof.
  unfold obtain_data, bind, read.
  assert (forall w0,
    match download_json_data_from_url_to_dict url w0 with
    | (Return a, w') =>
        match save_data_to_cache a w' with
        | (Return a0, w'0) => ret (a, Some a0) w'0
        | (Raise e, w'0) => (Raise e, w'0)
        end
    | (Raise e, w') => (Raise e, w')
    end = (Return (data, cache_file'), w1) ->
    PyDict.wf data /\
    naan_registry_cache w1 = naan_registry_cache w0 /\
    ark_root_resolver_map w1 = ark_root_resolver_map w0) as Hdl.
  { intros w0. unfold download_json_data_from_url_to_dict.
    destruct (remote w0 url) as [b|e]; [|discriminate].
    destruct (json_load b) as [d|e] eqn:E; [|discriminate].
    simpl. intros [= <- _ <-]. split; [|split]; auto.
    eapply json_load_wf; eauto. }
  destruct (use_cache i force cache_file w); [|apply Hdl].
  destruct cache_file as [p|]; [|apply Hdl].
  unfold load_from_cache.
  destruct (stat p (data_dir w)) as [f|]; [|discriminate].
  destruct (json_load (body f)) as [d|e] eqn:E; [|discriminate].
  simpl. intros [= <- _ <-]. split; [|split]; auto.
  eapply json_load_wf; eauto.
Qed.

(** The successful path of the refresh: the globals are updated in place,
    the cache with the snapshot and the map with the comprehension. *)
Lemma ensure_success url i force w data cache_file' w1 records :
  obtain_data url i force (get_latest_naan_registry_cache_file w) w
  = (Return (data, cache_file'), w1) ->
  PyDict.get "data" data = Some (JArray records) ->
  ensure_up_to_date_naan_registry_cache url i force w =
  (Return tt,
   with_ark_root_resolver_map
     (PyDict.update (ark_root_resolver_map w)
                    (PyDict.of_items (resolver_items records)))
     (with_naan_registry_cache
        (PyDict.update (naan_registry_cache w) data) w1)).
Proof.
  intros Hob Hdata.
  destruct (obtain_data_inv _ _ _ _ _ Hob) as (Hwf & Hn & Hm).
  unfold ensure_up_to_date_naan_registry_cache, bind, read, try_with.
  rewrite Hob.
  unfold publish, bind, naan_registry_cache_update.
  rewrite (@update_ark_root_resolver_map_records _ records).
  - simpl. now rewrite Hn, Hm.
  - simpl. rewrite PyDict.get_update, Hn.
    rewrite PyDict.get_last_get by exact Hwf. now rewrite Hdata.
Qed.

(** C5, as stated, fails: a first refresh publishes [snapshot_a]; a day
    later a second one downloads [snapshot_b], succeeds, and the key
    "12025" of the earlier snapshot is still in the published map. *)
Lemma ensure_keeps_earlier_entries :
  let w1 := snd (ensure_up_to_date_naan_registry_cache
                   default_url default_interval false
                   (startup 0 [] (serving snapshot_a))) in
  let r2 := ensure_up_to_date_naan_registry_cache
              default_url default_interval false
              (elapse 100000 (serving snapshot_b) w1) in
  fst r2 = Return tt /\
  naan_registry_cache (snd r2) = [("data", JArray snapshot_b)] /\
  ark_root_resolver_map (snd r2) = [("12025", T1); ("99999", T2)] /\
  ~ (forall k, In k (PyDict.keys (ark_root_resolver_map (snd r2)))
               <-> In k (map what snapshot_b)).
Proof.
  repeat split.
  intros H. destruct (proj1 (H "12025")) as [E|[]].
  - simpl. auto.
  - discriminate E.
Qed.

(** C5, amended (publication updates in place): when the refresh obtains
    a snapshot whose ["data"] is an array of records, it returns normally,
    [naan_registry_cache] is the old cache updated with the snapshot and
    [ark_root_resolver_map] the old map updated with the snapshot's
    comprehension: its keys are the old keys and the snapshot's [what]s,
    and a key the snapshot lacks keeps its old target. *)
Theorem ensure_publishes_by_update :
  forall (url : string) (i : Z) (force : bool) (w w1 : World)
         (data : PyDict.dict json) (cache_file' : option Path)
         (records : list NaanRecord),
    obtain_data url i force (get_latest_naan_registry_cache_file w) w
    = (Return (data, cache_file'), w1) ->
    PyDict.get "data" data = Some (JArray records) ->
    exists w',
      ensure_up_to_date_naan_registry_cache url i force w = (Return tt, w') /\
      naan_registry_cache w'
      = PyDict.update (naan_registry_cache w) data /\
      ark_root_resolver_map w'
      = PyDict.update (ark_root_resolver_map w)
                      (PyDict.of_items (resolver_items records)) /\
      (forall k, In k (PyDict.keys (ark_root_resolver_map w')) <->
                 In k (PyDict.keys (ark_root_resolver_map w)) \/
                 In k (map what records)) /\
      (forall k, ~ In k (map what records) ->
                 PyDict.get k (ark_root_resolver_map w')
                 = PyDict.get k (ark_root_resolver_map w)).
Proof.
  intros url i force w w1 data cf records Hob Hdata.
  eexists. split; [eapply ensure_success; eauto|].
  simpl. repeat split; auto.
  - rewrite PyDict.In_keys_update.
    intros [H|H]; auto. right.
    apply resolver_items_keys.
    apply (PyDict.In_keys_update k (resolver_items records) []) in H.
    simpl in H. tauto.
  - rewrite PyDict.In_keys_update.
    intros [H|H]; auto. right.
    apply (PyDict.In_keys_update k (resolver_items records) []).
    right. now apply resolver_items_keys.
  - intros k Hk. rewrite PyDict.get_update.
    rewrite PyDict.get_last_get by apply PyDict.wf_of_items.
    rewrite PyDict.get_of_items.
    replace (PyDict.get_last k (resolver_items records)) with (@None Target);
      auto.
    symmetry. apply PyDict.get_last_None_iff.
    now rewrite resolver_items_keys.
Qed.

Lemma ensure_publishes_by_update_witness :
  exists w',
    ensure_up_to_date_naan_registry_cache
      default_url default_interval false
      (mkWorld 100000 [stale_file] (serving snapshot_b) 0
               [("data", JArray snapshot_a)] [("12025", T1)])
    = (Return tt, w') /\
    naan_registry_cache w'
    = PyDict.update [("data", JArray snapshot_a)]
                    [("data", JArray snapshot_b)] /\
    ark_root_resolver_map w'
    = PyDict.update [("12025", T1)]
                    (PyDict.of_items (resolver_items snapshot_b)) /\
    (forall k, In k (PyDict.keys (ark_root_resolver_map w')) <->
               In k (PyDict.keys [("12025", T1)]) \/
               In k (map what snapshot_b)) /\
    (forall k, ~ In k (map what snapshot_b) ->
               PyDict.get k (ark_root_resolver_map w')
               = PyDict.get k [("12025", T1)]).
Proof.
  apply (@ensure_publishes_by_update
           default_url default_interval false
           (mkWorld 100000 [stale_file] (serving snapshot_b) 0
                    [("data", JArray snapshot_a)] [("12025", T1)])
           (mkWorld 100000
                    [stale_file;
                     mkFile 100000 100000
                            (Object [("data", JArray snapshot_b)])]
                    (serving snapshot_b) 1
                    [("data", JArray snapshot_a)] [("12025", T1)])
           [("data", JArray snapshot_b)] (Some 100000) snapshot_b).
  - reflexivity.
  - reflexivity.
Defined.

(** *** Two refreshes in succession *)

Lemma stat_In p dir f : stat p dir = Some f -> In f dir /\ name f = p.
Proof.
  induction dir as [|g dir IH]; simpl; [discriminate|].
  destruct (Z.eqb_spec (name g) p) as [E|_].
  - intros [= <-]. auto.
  - intros H. apply IH in H. tauto.
Qed.

Lemma stat_NoDup dir f :
  NoDup (map name dir) -> In f dir -> stat (name f) dir = Some f.
Proof.
  induction dir as [|g dir IH]; simpl; [tauto|].
  intros Hnd [->|Hin].
  - now rewrite Z.eqb_refl.
  - inversion Hnd as [|? ? Hnotin Hnd']; subst.
    destruct (Z.eqb_spec (name g) (name f)) as [E|_]; auto.
    exfalso. apply Hnotin. rewrite E. now apply in_map.
Qed.

Lemma In_write f g dir : In g (write f dir) -> g = f \/ In g dir.
Proof.
  induction dir as [|h dir IH]; simpl.
  - intros [<-|[]]. auto.
  - destruct (Z.eqb (name h) (name f)); simpl; intuition.
Qed.

Lemma stat_write_same f dir : stat (name f) (write f dir) = Some f.
Proof.
  induction dir as [|h dir IH]; simpl.
  - now rewrite Z.eqb_refl.
  - destruct (Z.eqb (name h) (name f)) eqn:E; simpl.
    + now rewrite Z.eqb_refl.
    + now rewrite E.
Qed.

Lemma max_mtime_In best rest : In (max_mtime best rest) (best :: rest).
Proof.
  revert best. induction rest as [|f rest IH]; intros best; simpl; auto.
  destruct (IH (if st_mtime best <? st_mtime f then f else best)) as [H|H];
    auto.
  rewrite <- H. destruct (st_mtime best <? st_mtime f); auto.
Qed.

Lemma max_mtime_ge_best best rest :
  st_mtime best <= st_mtime (max_mtime best rest).
Proof.
  revert best. induction rest as [|f rest IH]; intros best; simpl; [lia|].
  specialize (IH (if st_mtime best <? st_mtime f then f else best)).
  destruct (Z.ltb_spec (st_mtime best) (st_mtime f)); lia.
Qed.

Lemma max_mtime_ge best rest g :
  In g (best :: rest) -> st_mtime g <= st_mtime (max_mtime best rest).
Proof.
  revert best. induction rest as [|f rest IH]; intros best; simpl.
  - intros [->|[]]. lia.
  - intros [->|[->|Hin]].
    + pose proof (max_mtime_ge_best
                    (if st_mtime g <? st_mtime f then f else g) rest).
      destruct (Z.ltb_spec (st_mtime g) (st_mtime f)); lia.
    + pose proof (max_mtime_ge_best
                    (if st_mtime best <? st_mtime g then g else best) rest).
      destruct (Z.ltb_spec (st_mtime best) (st_mtime g)); lia.
    + apply IH. now right.
Qed.

Lemma is_cache_valid_true p i w :
  is_cache_valid p i w = true <->
  exists f, stat p (data_dir w) = Some f /\ clock w - st_mtime f < i.
Proof.
  unfold is_cache_valid. destruct (stat p (data_dir w)) as [f|].
  - rewrite Z.ltb_lt. split; [eauto|]. now intros (f' & [= <-] & H).
  - split; [discriminate|]. now intros (f' & [=] & _).
Qed.

(** The second half of the [try] block with its handler. *)
Definition publish_or_fall_back (data : PyDict.dict json) (p : Path)
  : M unit :=
  try_with (publish data) (fun _ => fallback (Some p)) ret.

(** A world has settled on a snapshot when publishing it again would
    write nothing new. *)
Definition settled (data : PyDict.dict json) (w : World) : Prop :=
  PyDict.update (naan_registry_cache w) data = naan_registry_cache w /\
  forall records,
    PyDict.get "data" (naan_registry_cache w) = Some (JArray records) ->
    PyDict.update (ark_root_resolver_map w)
                  (PyDict.of_items (resolver_items records))
    = ark_root_resolver_map w.

Lemma publish_or_fall_back_settles data p f w r w' :
  PyDict.wf data ->
  stat p (data_dir w) = Some f ->
  json_load (body f) = Return data ->
  publish_or_fall_back data p w = (r, w') ->
  r = Return tt /\ settled data w' /\
  data_dir w' = data_dir w /\ requests w' = requests w /\
  clock w' = clock w.
Proof.
  intros Hwf Hstat Hload.
  unfold publish_or_fall_back, try_with, publish, bind,
    naan_registry_cache_update, update_ark_root_resolver_map, PyDict.getitem.
  simpl.
  destruct (PyDict.get "data"
              (PyDict.update (naan_registry_cache w) data))
    as [[records|text]|] eqn:E; simpl.
  - intros [= <- <-]. unfold settled. simpl.
    repeat split; auto.
    + now apply PyDict.update_idem.
    + intros records' H. rewrite E in H. injection H as <-.
      apply PyDict.update_idem, PyDict.wf_of_items.
  - unfold load_from_cache, bind. simpl. rewrite Hstat, Hload. simpl.
    intros [= <- <-]. unfold settled. simpl.
    rewrite !PyDict.update_idem by exact Hwf.
    repeat split; auto. intros records' H. rewrite E in H. discriminate.
  - unfold load_from_cache, bind. simpl. rewrite Hstat, Hload. simpl.
    intros [= <- <-]. unfold settled. simpl.
    rewrite !PyDict.update_idem by exact Hwf.
    repeat split; auto. intros records' H. rewrite E in H. discriminate.
Qed.

Lemma publish_or_fall_back_settled data p f w :
  settled data w ->
  stat p (data_dir w) = Some f ->
  json_load (body f) = Return data ->
  publish_or_fall_back data p w = (Return tt, w).
Proof.
  intros [Hn Hm] Hstat Hload.
  unfold publish_or_fall_back, try_with, publish, bind,
    naan_registry_cache_update.
  rewrite Hn, with_naan_registry_cache_same.
  unfold update_ark_root_resolver_map, PyDict.getitem.
  destruct (PyDict.get "data" (naan_registry_cache w))
    as [[records|text]|] eqn:E.
  - now rewrite (Hm records eq_refl), with_ark_root_resolver_map_same.
  - unfold fallback, load_from_cache, bind. rewrite Hstat, Hload.
    unfold naan_registry_cache_update.
    now rewrite Hn, with_naan_registry_cache_same.
  - unfold fallback, load_from_cache, bind. rewrite Hstat, Hload.
    unfold naan_registry_cache_update.
    now rewrite Hn, with_naan_registry_cache_same.
Qed.

(** The refresh when the latest cache file is fresh. *)
Lemma ensure_cache_path url i w p f :
  get_latest_naan_registry_cache_file w = Some p ->
  stat p (data_dir w) = Some f ->
  clock w - st_mtime f < i ->
  ensure_up_to_date_naan_registry_cache url i false w =
  match json_load (body f) with
  | Raise e => (Raise e, w)
  | Return data => publish_or_fall_back data p w
  end.
Proof.
  intros Hlatest Hstat Hage.
  unfold ensure_up_to_date_naan_registry_cache, bind, read, try_with.
  rewrite Hlatest.
  unfold obtain_data, bind, read, use_cache, is_cache_valid.
  rewrite Hstat. apply Z.ltb_lt in Hage. rewrite Hage. simpl.
  unfold load_from_cache. rewrite Hstat.
  destruct (json_load (body f)) as [data|e] eqn:E; simpl.
  - reflexivity.
  - unfold fallback, load_from_cache, bind. now rewrite Hstat, E.
Qed.

(** The refresh when it is not. *)
Lemma ensure_download_path url i force w :
  use_cache i force (get_latest_naan_registry_cache_file w) w = false ->
  ensure_up_to_date_naan_registry_cache url i force w =
  let w' := with_requests (S (requests w)) w in
  match match remote w url with
        | Raise e => Raise e
        | Return b => json_load b
        end with
  | Raise _ => fallback (get_latest_naan_registry_cache_file w) w'
  | Return data =>
      publish_or_fall_back data (clock w)
        (with_data_dir
           (write (mkFile (clock w) (clock w) (Object data)) (data_dir w))
           w')
  end.
Proof.
  intros Huse.
  unfold ensure_up_to_date_naan_registry_cache, bind, read, try_with.
  unfold obtain_data, bind, read. rewrite Huse.
  unfold download_json_data_from_url_to_dict.
  destruct (remote w url) as [b|e]; [|reflexivity].
  destruct (json_load b) as [data|e]; reflexivity.
Qed.

(** With no cache file and a failing download the handler has nothing to
    do and the refresh returns normally, the globals untouched. *)
Lemma ensure_without_cache_swallows url i force w e :
  data_dir w = [] ->
  remote w url = Raise e ->
  ensure_up_to_date_naan_registry_cache url i force w
  = (Return tt, with_requests (S (requests w)) w).
Proof.
  intros Hdir Hnet.
  rewrite ensure_download_path.
  - rewrite Hnet. cbv zeta.
    unfold get_latest_naan_registry_cache_file. now rewrite Hdir.
  - unfold get_latest_naan_registry_cache_file. now rewrite Hdir.
Qed.

(** With a stale cache file and a failing download the handler loads the
    file into [naan_registry_cache] and returns; [ark_root_resolver_map]
    is not rebuilt. *)
Lemma ensure_stale_fallback url i w p f members e :
  get_latest_naan_registry_cache_file w = Some p ->
  stat p (data_dir w) = Some f ->
  i <= clock w - st_mtime f ->
  body f = Object members ->
  remote w url = Raise e ->
  ensure_up_to_date_naan_registry_cache url i false w
  = (Return tt,
     with_naan_registry_cache
       (PyDict.update (naan_registry_cache w) (PyDict.of_items members))
       (with_requests (S (requests w)) w)).
Proof.
  intros Hlatest Hstat Hage Hbody Hnet.
  rewrite ensure_download_path.
  - rewrite Hnet, Hlatest. cbv zeta.
    unfold fallback, bind, load_from_cache. simpl.
    now rewrite Hstat, Hbody.
  - rewrite Hlatest. simpl. unfold is_cache_valid. rewrite Hstat.
    now apply Z.ltb_ge.
Qed.

(** C3 (no data at all): at startup with an empty cache directory and an
    unreachable registry, the refresh returns normally; it has issued one
    request and both module globals are still empty. *)
Theorem ensure_without_any_data_returns :
  ensure_up_to_date_naan_registry_cache
    default_url default_interval false (startup 0 [] unreachable)
  = (Return tt, mkWorld 0 [] unreachable 1 [] []).
Proof. reflexivity. Qed.

(** C4 (stale fallback): at startup with one cache file older than the
    interval and an unreachable registry, the refresh returns normally
    and loads the stale snapshot into [naan_registry_cache], but
    [ark_root_resolver_map] stays empty; the map built from that snapshot
    has the key "12025". *)
Theorem ensure_stale_fallback_leaves_map :
  is_cache_valid 0 default_interval (startup 100000 [stale_file] unreachable)
  = false /\
  ensure_up_to_date_naan_registry_cache
    default_url default_interval false
    (startup 100000 [stale_file] unreachable)
  = (Return tt,
     mkWorld 100000 [stale_file] unreachable 1
             [("data", JArray snapshot_a)] []) /\
  PyDict.of_items (resolver_items snapshot_a) = [("12025", T1)].
Proof. repeat split. Qed.

Lemma fallback_keeps_dir cache_file w :
  data_dir (snd (fallback cache_file w)) = data_dir w.
Proof.
  unfold fallback. destruct cache_file as [p|]; auto.
  destruct (stat p (data_dir w)) as [f|] eqn:E; auto.
  unfold bind, load_from_cache. rewrite E.
  destruct (json_load (body f)); reflexivity.
Qed.

Lemma get_latest_dir w w' :
  data_dir w' = data_dir w ->
  get_latest_naan_registry_cache_file w'
  = get_latest_naan_registry_cache_file w.
Proof. unfold get_latest_naan_registry_cache_file. now intros ->. Qed.

Lemma settled_elapse data now net w :
  settled data w -> settled data (elapse now net w).
Proof. unfold settled. simpl. auto. Qed.

(** What the first of two refreshes leaves behind, seen from a later
    moment [t2] at which the latest cache file [f] is still fresh: the
    first refresh has published the content of [f] (or failed on it). *)
Lemma ensure_leaves_settled url i w0 r1 w1 t2 p f :
  NoDup (map name (data_dir w0)) ->
  clock w0 <= t2 ->
  ensure_up_to_date_naan_registry_cache url i false w0 = (r1, w1) ->
  get_latest_naan_registry_cache_file w1 = Some p ->
  stat p (data_dir w1) = Some f ->
  t2 - st_mtime f < i ->
  match json_load (body f) with
  | Raise e => r1 = Raise e
  | Return data => r1 = Return tt /\ settled data w1
  end.
Proof.
  intros Hnd Ht Hrun Hlatest Hstat Hage.
  destruct (use_cache i false (get_latest_naan_registry_cache_file w0) w0)
    eqn:U.
  - (* the first refresh read the cache *)
    destruct (get_latest_naan_registry_cache_file w0) as [p0|] eqn:L0;
      [|discriminate].
    simpl in U. apply is_cache_valid_true in U as (f0 & Hstat0 & Hage0).
    rewrite (@ensure_cache_path url i w0 p0 f0 L0 Hstat0 Hage0) in Hrun.
    destruct (json_load (body f0)) as [data|e] eqn:E.
    + pose proof (@json_load_wf _ _ E) as Hwf.
      destruct (@publish_or_fall_back_settles data p0 f0 w0 r1 w1
                  Hwf Hstat0 E Hrun)
        as (-> & Hset & Hdir & _).
      rewrite (@get_latest_dir w0 w1 Hdir), L0 in Hlatest.
      injection Hlatest as <-.
      rewrite Hdir, Hstat0 in Hstat. injection Hstat as <-.
      rewrite E. auto.
    + injection Hrun as <- <-.
      rewrite L0 in Hlatest. injection Hlatest as <-.
      rewrite Hstat0 in Hstat. injection Hstat as <-.
      now rewrite E.
  - (* the first refresh went to the network *)
    rewrite (@ensure_download_path url i false w0 U) in Hrun.
    cbv zeta in Hrun.
    destruct (match remote w0 url with
              | Return b => json_load b
              | Raise e => Raise e
              end) as [data|e] eqn:Hdl.
    + assert (PyDict.wf data) as Hwf.
      { destruct (remote w0 url) as [b|]; [|discriminate].
        eapply json_load_wf; eauto. }
      set (fN := mkFile (clock w0) (clock w0) (Object data)) in *.
      assert (json_load (body fN) = Return data) as HloadN
          by (simpl; now rewrite PyDict.of_items_wf).
      pose proof (stat_write_same fN (data_dir w0)) as HstatN.
      destruct (@publish_or_fall_back_settles data (clock w0) fN
                  (with_data_dir (write fN (data_dir w0))
                                 (with_requests (S (requests w0)) w0))
                  r1 w1 Hwf HstatN HloadN Hrun)
        as (-> & Hset & Hdir & _).
      simpl in Hdir. rewrite Hdir in Hstat.
      destruct (@stat_In _ _ _ Hstat) as [Hin _].
      apply In_write in Hin as [->|Hin].
      * rewrite HloadN. auto.
      * exfalso.
        unfold get_latest_naan_registry_cache_file in U.
        destruct (data_dir w0) as [|g gs] eqn:D; [destruct Hin|].
        simpl in U. unfold is_cache_valid in U. rewrite D in U.
        rewrite (@stat_NoDup _ _ Hnd (max_mtime_In g gs)) in U.
        apply Z.ltb_ge in U.
        pose proof (@max_mtime_ge g gs f Hin). lia.
    + exfalso.
      pose proof (fallback_keeps_dir
                    (get_latest_naan_registry_cache_file w0)
                    (with_requests (S (requests w0)) w0)) as Hdir.
      rewrite Hrun in Hdir. simpl in Hdir.
      rewrite (@get_latest_dir w0 w1 Hdir) in Hlatest.
      rewrite Hlatest in U. simpl in U.
      unfold is_cache_valid in U. rewrite <- Hdir, Hstat in U.
      apply Z.ltb_ge in U. lia.
Qed.

Lemma In_write_new f dir : In f (write f dir).
Proof.
  induction dir as [|h dir IH]; simpl; auto.
  destruct (Z.eqb (name h) (name f)); simpl; auto.
Qed.

(** After a refresh that downloaded and saved, the saved file is the
    latest one, and it is fresh at every moment less than the interval
    later. *)
Lemma ensure_download_makes_fresh url i w0 r1 w1 b data t2 net2 :
  NoDup (map name (data_dir w0)) ->
  use_cache i false (get_latest_naan_registry_cache_file w0) w0 = false ->
  remote w0 url = Return b ->
  json_load b = Return data ->
  ensure_up_to_date_naan_registry_cache url i false w0 = (r1, w1) ->
  clock w0 <= t2 ->
  t2 - clock w0 < i ->
  get_latest_naan_registry_cache_file (elapse t2 net2 w1) = Some (clock w0)
  /\ is_cache_valid (clock w0) i (elapse t2 net2 w1) = true.
Proof.
  intros Hnd U Hnet Hload Hrun Ht Hlt.
  rewrite (@ensure_download_path url i false w0 U) in Hrun.
  rewrite Hnet, Hload in Hrun. cbv zeta in Hrun.
  pose proof (@json_load_wf _ _ Hload) as Hwf.
  set (fN := mkFile (clock w0) (clock w0) (Object data)) in *.
  assert (json_load (body fN) = Return data) as HloadN
      by (simpl; now rewrite PyDict.of_items_wf).
  pose proof (stat_write_same fN (data_dir w0)) as HstatN.
  destruct (@publish_or_fall_back_settles data (clock w0) fN
              (with_data_dir (write fN (data_dir w0))
                             (with_requests (S (requests w0)) w0))
              r1 w1 Hwf HstatN HloadN Hrun)
    as (_ & _ & Hdir & _).
  simpl in Hdir.
  assert (forall g, In g (data_dir w0) -> st_mtime g < clock w0) as Hold.
  { intros g Hg.
    unfold get_latest_naan_registry_cache_file in U.
    destruct (data_dir w0) as [|h hs] eqn:D; [destruct Hg|].
    simpl in U. unfold is_cache_valid in U. rewrite D in U.
    rewrite (@stat_NoDup _ _ Hnd (max_mtime_In h hs)) in U.
    apply Z.ltb_ge in U.
    pose proof (@max_mtime_ge h hs g Hg). lia. }
  split.
  - unfold get_latest_naan_registry_cache_file. simpl. rewrite Hdir.
    pose proof (In_write_new fN (data_dir w0)) as HinN.
    destruct (write fN (data_dir w0)) as [|h hs] eqn:W; [destruct HinN|].
    pose proof (max_mtime_In h hs) as Hin. rewrite <- W in Hin.
    apply In_write in Hin as [->|Hin]; [reflexivity|].
    exfalso. apply Hold in Hin.
    pose proof (@max_mtime_ge h hs fN HinN). simpl in *. lia.
  - apply is_cache_valid_true. exists fN. simpl. rewrite Hdir.
    split; [exact HstatN | lia].
Qed.

(** C8, as stated, fails: the first refresh, at second 9, reads a cache
    file written at second 0 (interval 10); the second one, two seconds
    later and so well within the interval of the first, finds the file
    too old, goes to the network and publishes what it gets. *)
Lemma ensure_second_call_fetches :
  let w0 := mkWorld 9 [stale_file] (serving snapshot_b) 0 [] [] in
  let w1 := snd (ensure_up_to_date_naan_registry_cache
                   default_url 10 false w0) in
  let w2 := snd (ensure_up_to_date_naan_registry_cache
                   default_url 10 false (elapse 11 (serving snapshot_b) w1)) in
  11 - clock w0 < 10 /\
  requests w1 = 0%nat /\ requests w2 = 1%nat /\
  ark_root_resolver_map w1 = [("12025", T1)] /\
  ark_root_resolver_map w2 = [("12025", T1); ("99999", T2)] /\
  naan_registry_cache w2 <> naan_registry_cache w1.
Proof.
  repeat split. discriminate.
Qed.

(** C8, amended (freshness is the file's, not the call's): two refreshes
    in succession without [force_download], the second at a moment when
    the latest cache file was written less than the interval ago, which
    after a first refresh that downloaded is any moment less than the
    interval after it: the second refresh issues no request, ends as the
    first did and leaves the directory, [naan_registry_cache] and
    [ark_root_resolver_map] as the first left them. *)
Theorem ensure_twice_while_fresh :
  forall (url : string) (i : Z) (w0 w1 : World) (r1 : result unit)
         (t2 : Z) (net2 : string -> result Body) (p : Path),
    NoDup (map name (data_dir w0)) ->
    clock w0 <= t2 ->
    ensure_up_to_date_naan_registry_cache url i false w0 = (r1, w1) ->
    get_latest_naan_registry_cache_file (elapse t2 net2 w1) = Some p ->
    is_cache_valid p i (elapse t2 net2 w1) = true ->
    exists w2,
      ensure_up_to_date_naan_registry_cache url i false (elapse t2 net2 w1)
      = (r1, w2) /\
      requests w2 = requests w1 /\
      data_dir w2 = data_dir w1 /\
      naan_registry_cache w2 = naan_registry_cache w1 /\
      ark_root_resolver_map w2 = ark_root_resolver_map w1.
Proof.
  intros url i w0 w1 r1 t2 net2 p Hnd Ht Hrun Hlatest Hvalid.
  apply is_cache_valid_true in Hvalid as (f & Hstat & Hage).
  simpl in Hstat, Hage.
  pose proof (@ensure_leaves_settled url i w0 r1 w1 t2 p f
                Hnd Ht Hrun Hlatest Hstat Hage) as Hinv.
  exists (elapse t2 net2 w1).
  split; [|simpl; auto].
  rewrite (@ensure_cache_path url i (elapse t2 net2 w1) p f); auto.
  destruct (json_load (body f)) as [data|e] eqn:E.
  - destruct Hinv as [-> Hset].
    apply (@publish_or_fall_back_settled data p f _);
      auto using settled_elapse.
  - now subst r1.
Qed.

Lemma ensure_twice_while_fresh_witness :
  exists w2,
    ensure_up_to_date_naan_registry_cache default_url default_interval false
      (elapse 3600 (serving snapshot_b)
         (mkWorld 0 [mkFile 0 0 (Object [("data", JArray snapshot_a)])]
                  (serving snapshot_a) 1
                  [("data", JArray snapshot_a)] [("12025", T1)]))
    = (Return tt, w2) /\
    requests w2 = 1%nat /\
    data_dir w2 = [mkFile 0 0 (Object [("data", JArray snapshot_a)])] /\
    naan_registry_cache w2 = [("data", JArray snapshot_a)] /\
    ark_root_resolver_map w2 = [("12025", T1)].
Proof.
  apply (@ensure_twice_while_fresh
           default_url default_interval
           (startup 0 [] (serving snapshot_a))
           (mkWorld 0 [mkFile 0 0 (Object [("data", JArray snapshot_a)])]
                    (serving snapshot_a) 1
                    [("data", JArray snapshot_a)] [("12025", T1)])
           (Return tt) 3600 (serving snapshot_b) 0).
  - constructor.
  - simpl. lia.
  - reflexivity.
  - reflexivity.
  - reflexivity.
Defined.

End RegistryProperties.

(* ================================================================== *)
(** * Further properties of the resolver *)

From Stdlib Require Import Sorted.

Section ResolverFurther.
Import PyStr Resolver.
Local Open Scope string_scope.

(** Keys in non-increasing length, the order the comprehension of
    [update_ark_root_resolver_map] aims at. *)
Definition longer_first (a b : string) : Prop :=
  String.length b <= String.length a.

Lemma py_max_first (V : Type) (key : string * V -> nat) best rest :
  Forall (fun x => key x <= key best) rest ->
  py_max key best rest = best.
Proof.
  induction rest as [|x rest IH]; simpl; auto.
  intros H. inversion H as [|? ? Hx Hrest]; subst.
  destruct (Nat.ltb_spec (key best) (key x)); [lia|]. auto.
Qed.

Lemma find_filter_head (A : Type) (p : A -> bool) (l : list A) :
  find p l = match filter p l with [] => None | x :: _ => Some x end.
Proof.
  induction l as [|a l IH]; simpl; auto.
  destruct (p a); auto.
Qed.

Lemma matches_sorted_head (V : Type) (I : string) (M : PyDict.dict V) m ms :
  StronglySorted longer_first (PyDict.keys M) ->
  matches I M = m :: ms ->
  Forall (fun x => key_len x <= key_len m) ms.
Proof.
  unfold matches. induction M as [|a M IH]; simpl; [discriminate|].
  intros Hs. apply StronglySorted_inv in Hs as [Hs Ha].
  destruct (startswith I (fst a)) eqn:E.
  - intros [= <- <-]. apply Forall_forall. intros x Hx.
    apply filter_In in Hx as [Hx _].
    rewrite Forall_forall in Ha.
    apply (Ha (fst x)). now apply in_map.
  - now apply IH.
Qed.

(** On a dict whose keys come longest first, the longest matching key is
    the first matching key in iteration order. *)
Theorem match_prefix_first_match_when_sorted :
  forall (V : Type) (I : string) (M : PyDict.dict V),
    StronglySorted longer_first (PyDict.keys M) ->
    match_prefix I M = find (fun kv => startswith I (fst kv)) M.
Proof.
  intros V I M Hs. unfold match_prefix.
  rewrite find_filter_head. fold (matches I M).
  destruct (matches I M) as [|m ms] eqn:E; auto.
  f_equal. apply py_max_first. eapply matches_sorted_head; eauto.
Qed.

Lemma match_prefix_first_match_when_sorted_witness :
  match_prefix "120259/x1" [("12025", T1); ("1202", T3); ("120", T2)]
  = find (fun kv => startswith "120259/x1" (fst kv))
         [("12025", T1); ("1202", T3); ("120", T2)].
Proof.
  apply (@match_prefix_first_match_when_sorted Target "120259/x1"
           [("12025", T1); ("1202", T3); ("120", T2)]).
  unfold longer_first. simpl.
  repeat constructor; simpl; lia.
Defined.

Lemma matches_set_nonmatching (V : Type) (I k : string) (v : V)
      (M : PyDict.dict V) :
  startswith I k = false ->
  matches I (PyDict.set k v M) = matches I M.
Proof.
  intros Hk. unfold matches.
  induction M as [|[k' v'] M IH]; simpl.
  - now rewrite Hk.
  - destruct (String.eqb_spec k' k) as [->|Hne]; simpl.
    + now rewrite Hk.
    + now rewrite IH.
Qed.

(** Writing a key that is not a prefix of the identifier, new or already
    present, does not change what the identifier matches. *)
Theorem match_prefix_ignores_other_key :
  forall (V : Type) (I k : string) (v : V) (M : PyDict.dict V),
    startswith I k = false ->
    match_prefix I (PyDict.set k v M) = match_prefix I M.
Proof.
  intros V I k v M Hk. unfold match_prefix.
  now rewrite matches_set_nonmatching.
Qed.

Lemma match_prefix_ignores_other_key_witness :
  match_prefix "120259/x1" (PyDict.set "99999" T2 example_map)
  = match_prefix "120259/x1" example_map.
Proof.
  apply (@match_prefix_ignores_other_key Target "120259/x1" "99999" T2
           example_map).
  reflexivity.
Defined.

(** An identifier that is itself a key matches that key. *)
Lemma match_prefix_whole_key (V : Type) (I : string) (v : V)
      (M : PyDict.dict V) :
  PyDict.wf M ->
  PyDict.get I M = Some v ->
  match_prefix I M = Some (I, v).
Proof.
  intros Hwf Hget.
  pose proof (PyDict.get_Some_In _ _ Hget) as Hin.
  assert (startswith I I = true) as Hself.
  { apply startswith_iff. exists "". clear.
    induction I; simpl; congruence. }
  destruct (match_prefix I M) as [[k2 v2]|] eqn:E.
  - apply match_prefix_Some in E as (Hin2 & Hpre2 & Hmax2).
    pose proof (Hmax2 _ _ Hin Hself) as L1.
    pose proof (startswith_length _ _ Hpre2) as L2.
    assert (k2 = I) as ->
        by (apply (startswith_same_length I); auto; lia).
    pose proof (@PyDict.In_get _ I v2 M Hwf Hin2) as G.
    congruence.
  - exfalso.
    pose proof (proj1 (match_prefix_None I M) E I) as Hn.
    rewrite Hn in Hself; [discriminate|].
    apply in_map_iff. exists (I, v). auto.
Qed.

(** A request for an identifier that is itself a registered key is
    answered with that key's own target, whatever shorter keys the map
    holds. *)
Theorem handle_ark_registered_key :
  forall (M : PyDict.dict Target) (I : string) (t : Target),
    PyDict.wf M ->
    PyDict.get I M = Some t ->
    startswith I "/" = false ->
    handle_ark I M =
    Return (mkRedirect (removesuffix (url t) "${content}" ++ I)
                       (http_code t)).
Proof.
  intros M I t Hwf Hget Hslash.
  unfold handle_ark. rewrite Hslash.
  now rewrite (@match_prefix_whole_key Target I t M Hwf Hget).
Qed.

Lemma handle_ark_registered_key_witness :
  handle_ark "1202" example_map =
  Return (mkRedirect (removesuffix (url T3) "${content}" ++ "1202")
                     (http_code T3)).
Proof.
  apply (@handle_ark_registered_key example_map "1202" T3).
  - unfold PyDict.wf. simpl.
    repeat constructor; simpl; intuition discriminate.
  - reflexivity.
  - reflexivity.
Defined.

(** One leading "/" makes no difference: [/ark:/12025/x] and
    [/ark:12025/x] get the same answer. *)
Theorem handle_ark_leading_slash :
  forall (M : PyDict.dict Target) (identifier : string),
    startswith identifier "/" = false ->
    handle_ark ("/" ++ identifier) M = handle_ark identifier M.
Proof.
  intros M identifier Hno. unfold handle_ark.
  now rewrite startswith_app, removeprefix_app, Hno.
Qed.

Lemma handle_ark_leading_slash_witness :
  handle_ark ("/" ++ "12025/x1") example_map
  = handle_ark "12025/x1" example_map.
Proof.
  apply (@handle_ark_leading_slash example_map "12025/x1").
  reflexivity.
Defined.



End ResolverFurther.

(* ================================================================== *)
(** * Further properties of the registry cache *)

Section RegistryFurther.
Import PyStr Resolver Registry.
Local Open Scope string_scope.
Local Open Scope Z_scope.

(** *** The cache directory *)

Lemma stat_write_other f q dir :
  name f <> q -> stat q (write f dir) = stat q dir.
Proof.
  intros Hne. induction dir as [|g dir IH]; simpl.
  - destruct (Z.eqb_spec (name f) q); tauto.
  - destruct (Z.eqb_spec (name g) (name f)) as [E|_]; simpl.
    + destruct (Z.eqb_spec (name f) q); [tauto|].
      destruct (Z.eqb_spec (name g) q); [congruence|reflexivity].
    + now rewrite IH.
Qed.


(** The path [get_latest_naan_registry_cache_file] returns names a file of
    the directory, and no file of the directory was modified later. *)
Theorem get_latest_is_newest :
  forall (w : World) (p : Path),
    NoDup (map name (data_dir w)) ->
    get_latest_naan_registry_cache_file w = Some p ->
    exists f,
      stat p (data_dir w) = Some f /\
      In f (data_dir w) /\
      forall g, In g (data_dir w) -> st_mtime g <= st_mtime f.
Proof.
  intros w p Hnd. unfold get_latest_naan_registry_cache_file.
  destruct (data_dir w) as [|g gs] eqn:D; [discriminate|].
  intros [= <-]. exists (max_mtime g gs).
  pose proof (max_mtime_In g gs) as Hin.
  repeat split; auto.
  - now apply stat_NoDup.
  - intros h Hh. now apply max_mtime_ge.
Qed.

Definition two_files : list CacheFile :=
  [ mkFile 20 5 (Object [("data", JArray snapshot_a)]);
    mkFile 10 7 (Object [("data", JArray snapshot_b)]) ].

Lemma get_latest_is_newest_witness :
  exists f,
    stat 10 two_files = Some f /\
    In f two_files /\
    forall g, In g two_files -> st_mtime g <= st_mtime f.
Proof.
  apply (@get_latest_is_newest (startup 100 two_files unreachable) 10).
  - simpl. repeat constructor; simpl; intuition discriminate.
  - reflexivity.
Defined.

(** What [save_data_to_cache] writes, [load_from_cache] reads back; the
    file just written passes [is_cache_valid] exactly for a positive
    interval. *)
Theorem save_then_load :
  forall (data : PyDict.dict json) (w : World) (i : Z),
    PyDict.wf data ->
    exists p w',
      save_data_to_cache data w = (Return p, w') /\
      load_from_cache p w' = (Return data, w') /\
      is_cache_valid p i w' = (0 <? i).
Proof.
  intros data w i Hwf.
  set (fN := mkFile (clock w) (clock w) (Object data)).
  set (w' := with_data_dir (write fN (data_dir w)) w).
  assert (stat (clock w) (data_dir w') = Some fN) as Hstat
      by exact (stat_write_same fN (data_dir w)).
  exists (clock w), w'. split; [reflexivity|]. split.
  - unfold load_from_cache. rewrite Hstat. simpl.
    now rewrite PyDict.of_items_wf.
  - unfold is_cache_valid. rewrite Hstat. simpl.
    now rewrite Z.sub_diag.
Qed.

Lemma save_then_load_witness :
  exists p w',
    save_data_to_cache [("data", JArray snapshot_a)]
                       (startup 100 two_files unreachable)
    = (Return p, w') /\
    load_from_cache p w' = (Return [("data", JArray snapshot_a)], w') /\
    is_cache_valid p 0 w' = (0 <? 0).
Proof.
  apply (@save_then_load [("data", JArray snapshot_a)]
           (startup 100 two_files unreachable) 0).
  unfold PyDict.wf. simpl. repeat constructor. simpl. tauto.
Defined.



(** *** What a refresh touches *)

Lemma fallback_inv cache_file w r w' :
  fallback cache_file w = (r, w') ->
  clock w' = clock w /\ data_dir w' = data_dir w /\
  requests w' = requests w /\
  ark_root_resolver_map w' = ark_root_resolver_map w /\
  forall e, r = Raise e ->
            e = JSONDecodeError /\ w' = w /\
            exists p f, cache_file = Some p /\
                        stat p (data_dir w) = Some f /\
                        body f = Malformed.
Proof.
  unfold fallback. destruct cache_file as [p|].
  - destruct (stat p (data_dir w)) as [f|] eqn:E.
    + unfold bind, load_from_cache. rewrite E.
      destruct (body f) as [|members] eqn:B; simpl.
      * intros [= <- <-].
        refine (conj eq_refl (conj eq_refl (conj eq_refl (conj eq_refl _)))).
        intros e [= <-]. split; [reflexivity|]. split; [reflexivity|].
        exists p, f. auto.
      * intros [= <- <-].
        refine (conj eq_refl (conj eq_refl (conj eq_refl (conj eq_refl _)))).
        discriminate.
    + intros [= <- <-].
      refine (conj eq_refl (conj eq_refl (conj eq_refl (conj eq_refl _)))).
      discriminate.
  - intros [= <- <-].
    refine (conj eq_refl (conj eq_refl (conj eq_refl (conj eq_refl _)))).
    discriminate.
Qed.

(** One refresh, in all its paths: the clock field is not its to move, it
    issues a request exactly when it does not use the cache, it writes at
    most the file named after the current second, and if it raises it has
    published nothing and the latest cache file is not JSON. *)
Lemma ensure_inv url i force w r w' :
  ensure_up_to_date_naan_registry_cache url i force w = (r, w') ->
  clock w' = clock w /\
  requests w' =
  (requests w +
   if use_cache i force (get_latest_naan_registry_cache_file w) w
   then 0 else 1)%nat /\
  (data_dir w' = data_dir w \/
   exists data,
     data_dir w' =
     write (mkFile (clock w) (clock w) (Object data)) (data_dir w)) /\
  forall e, r = Raise e ->
            e = JSONDecodeError /\
            naan_registry_cache w' = naan_registry_cache w /\
            ark_root_resolver_map w' = ark_root_resolver_map w /\
            exists p f,
              get_latest_naan_registry_cache_file w = Some p /\
              stat p (data_dir w) = Some f /\
              body f = Malformed.
Proof.
  intros Hrun.
  destruct (use_cache i force (get_latest_naan_registry_cache_file w) w)
    eqn:U.
  - destruct (get_latest_naan_registry_cache_file w) as [p|] eqn:L;
      [|discriminate].
    simpl in U. apply andb_prop in U as [Hforce Hvalid].
    destruct force; [discriminate|].
    apply is_cache_valid_true in Hvalid as (f & Hstat & Hage).
    rewrite (@ensure_cache_path url i w p f L Hstat Hage) in Hrun.
    destruct (json_load (body f)) as [data|e0] eqn:E.
    + pose proof (@json_load_wf _ _ E) as Hwf.
      destruct (@publish_or_fall_back_settles data p f w r w'
                  Hwf Hstat E Hrun) as (-> & _ & Hdir & Hreq & Hclock).
      refine (conj Hclock (conj _ (conj (or_introl Hdir) _))).
      * rewrite Hreq. lia.
      * discriminate.
    + injection Hrun as <- <-.
      refine (conj eq_refl (conj _ (conj (or_introl eq_refl) _))).
      * lia.
      * intros e [= <-].
        destruct (body f) eqn:B; simpl in E; [|discriminate].
        injection E as <-.
        split; [reflexivity|]. split; [reflexivity|].
        split; [reflexivity|]. exists p, f. auto.
  - rewrite (@ensure_download_path url i force w U) in Hrun.
    cbv zeta in Hrun.
    destruct (match remote w url with
              | Return b => json_load b
              | Raise e => Raise e
              end) as [data|e0] eqn:Hdl.
    + assert (PyDict.wf data) as Hwf.
      { destruct (remote w url) as [b|]; [|discriminate].
        eapply json_load_wf; eauto. }
      set (fN := mkFile (clock w) (clock w) (Object data)) in *.
      assert (json_load (body fN) = Return data) as HloadN
          by (simpl; now rewrite PyDict.of_items_wf).
      pose proof (stat_write_same fN (data_dir w)) as HstatN.
      destruct (@publish_or_fall_back_settles data (clock w) fN
                  (with_data_dir (write fN (data_dir w))
                                 (with_requests (S (requests w)) w))
                  r w' Hwf HstatN HloadN Hrun)
        as (-> & _ & Hdir & Hreq & Hclock).
      simpl in Hdir, Hreq, Hclock.
      refine (conj Hclock (conj _ (conj (or_intror _) _))).
      * rewrite Hreq. lia.
      * exists data. exact Hdir.
      * discriminate.
    + destruct (fallback_inv _ _ Hrun)
        as (Hclock & Hdir & Hreq & Hmap & Hraise).
      simpl in Hclock, Hdir, Hreq, Hmap, Hraise.
      refine (conj Hclock (conj _ (conj (or_introl Hdir) _))).
      * rewrite Hreq. lia.
      * intros e He.
        destruct (Hraise e He) as (-> & -> & p & f & Hp & Hs & Hb).
        split; [reflexivity|]. split; [reflexivity|].
        split; [reflexivity|]. exists p, f. auto.
Qed.

(** A refresh issues one request when it does not use the cache and none
    when it does, whatever comes of it; with [force_download] it always
    issues exactly one. *)
Theorem ensure_request_count :
  forall (url : string) (i : Z) (force : bool) (w : World),
    requests (snd (ensure_up_to_date_naan_registry_cache url i force w)) =
    (requests w +
     if use_cache i force (get_latest_naan_registry_cache_file w) w
     then 0 else 1)%nat /\
    requests (snd (ensure_up_to_date_naan_registry_cache url i true w)) =
    S (requests w).
Proof.
  intros url i force w. split.
  - destruct (ensure_up_to_date_naan_registry_cache url i force w)
      as [r w'] eqn:E.
    now destruct (ensure_inv _ _ _ _ E) as (_ & H & _).
  - destruct (ensure_up_to_date_naan_registry_cache url i true w)
      as [r w'] eqn:E.
    destruct (ensure_inv _ _ _ _ E) as (_ & H & _).
    simpl. rewrite H.
    destruct (get_latest_naan_registry_cache_file w); simpl; lia.
Qed.



(** A refresh neither deletes nor rewrites a cache file of an earlier
    second: only the file named after the current second can change. *)
Theorem ensure_keeps_older_files :
  forall (url : string) (i : Z) (force : bool) (w : World) (q : Path),
    q <> clock w ->
    stat q (data_dir (snd (ensure_up_to_date_naan_registry_cache
                             url i force w)))
    = stat q (data_dir w).
Proof.
  intros url i force w q Hq.
  destruct (ensure_up_to_date_naan_registry_cache url i force w)
    as [r w'] eqn:E.
  destruct (ensure_inv _ _ _ _ E) as (_ & _ & [Hdir|[data Hdir]] & _);
    simpl; rewrite Hdir; auto.
  apply stat_write_other. simpl. congruence.
Qed.

Lemma ensure_keeps_older_files_witness :
  stat 0 (data_dir (snd (ensure_up_to_date_naan_registry_cache
                           default_url default_interval false
                           (startup 100000 [stale_file]
                                    (serving snapshot_b)))))
  = stat 0 (data_dir (startup 100000 [stale_file] (serving snapshot_b))).
Proof.
  apply (@ensure_keeps_older_files default_url default_interval false
           (startup 100000 [stale_file] (serving snapshot_b)) 0).
  simpl. discriminate.
Defined.

(** *** The order of the rebuilt map *)

Lemma insert_desc_Forall (A : Type) (key : A -> nat) (P : A -> Prop) x l :
  P x -> Forall P l -> Forall P (insert_desc key x l).
Proof.
  intros Hx. induction l as [|y l IH]; simpl; intros Hl.
  - auto.
  - inversion Hl; subst.
    destruct (Nat.ltb (key x) (key y)); auto.
Qed.

Lemma sorted_desc_sorted (A : Type) (key : A -> nat) (l : list A) :
  StronglySorted (fun a b => (key b <= key a)%nat) (sorted_desc key l).
Proof.
  induction l as [|x l IH]; simpl; [constructor|].
  set (s := sorted_desc key l) in *. clearbody s.
  induction s as [|y s IHs]; simpl.
  - repeat constructor.
  - apply StronglySorted_inv in IH as [Hs Hy].
    destruct (Nat.ltb_spec (key x) (key y)) as [Hlt|Hge].
    + constructor; auto.
      apply insert_desc_Forall; [lia | exact Hy].
    + constructor; [constructor; auto|].
      constructor; [exact Hge|].
      eapply Forall_impl; [|exact Hy]. simpl. intros a Ha. lia.
Qed.

Lemma StronglySorted_map (A B : Type) (f : A -> B)
      (R : B -> B -> Prop) (l : list A) :
  StronglySorted (fun a b => R (f a) (f b)) l ->
  StronglySorted R (map f l).
Proof.
  induction 1 as [|a l Hs IH Ha]; simpl; constructor; auto.
  now apply Forall_map.
Qed.

Lemma StronglySorted_drop (A : Type) (R : A -> A -> Prop) l1 x l2 :
  StronglySorted R (l1 ++ x :: l2) -> StronglySorted R (l1 ++ l2).
Proof.
  induction l1 as [|a l1 IH]; simpl; intros H.
  - now apply StronglySorted_inv in H.
  - apply StronglySorted_inv in H as [Hs Ha].
    constructor; auto.
    rewrite Forall_app in *. destruct Ha as [H1 H2].
    split; auto. now inversion H2.
Qed.

(** A dict built from items lists its keys in the order of their first
    occurrence, so it keeps the order the items are sorted in. *)
Lemma keys_update_sorted (V : Type) (R : string -> string -> Prop)
      (items : list (string * V)) :
  forall acc : PyDict.dict V,
    StronglySorted R (PyDict.keys acc ++ map fst items) ->
    StronglySorted R (PyDict.keys (PyDict.update acc items)).
Proof.
  unfold PyDict.update.
  induction items as [|[k v] items IH]; simpl; intros acc H.
  - now rewrite app_nil_r in H.
  - apply IH. rewrite PyDict.keys_set.
    destruct (PyDict.get k acc).
    + eapply StronglySorted_drop; eauto.
    + now rewrite <- app_assoc.
Qed.

(** Built into an empty map, the resolver map lists its keys longest
    first, the "(ordered) dict" of the docstring. *)
Theorem update_ark_root_resolver_map_orders_keys :
  forall (w : World) (records : list NaanRecord),
    PyDict.get "data" (naan_registry_cache w) = Some (JArray records) ->
    ark_root_resolver_map w = [] ->
    exists w',
      update_ark_root_resolver_map w = (Return tt, w') /\
      StronglySorted longer_first (PyDict.keys (ark_root_resolver_map w')).
Proof.
  intros w records Hdata Hempty.
  eexists. split.
  - apply update_ark_root_resolver_map_records. exact Hdata.
  - simpl. rewrite Hempty.
    change (PyDict.update [] (PyDict.of_items (resolver_items records)))
      with (PyDict.of_items (PyDict.of_items (resolver_items records))).
    rewrite PyDict.of_items_wf by apply PyDict.wf_of_items.
    apply keys_update_sorted. simpl.
    unfold resolver_items. rewrite map_map. simpl.
    apply StronglySorted_map.
    apply (sorted_desc_sorted (fun r => String.length (what r))).
Qed.

Lemma update_ark_root_resolver_map_orders_keys_witness :
  exists w',
    update_ark_root_resolver_map
      (mkWorld 0 [] unreachable 0
               [("data", JArray duplicate_records)] [])
    = (Return tt, w') /\
    StronglySorted longer_first (PyDict.keys (ark_root_resolver_map w')).
Proof.
  apply (@update_ark_root_resolver_map_orders_keys
           (mkWorld 0 [] unreachable 0
                    [("data", JArray duplicate_records)] [])
           duplicate_records).
  - reflexivity.
  - reflexivity.
Defined.

(** *** From the registry to the redirect *)



(** *** The background task *)

(** [periodically_download_and_update_naan_registry_cache], for as many
    rounds of its [while True] as [wakeups] is long.  Each round sleeps
    [interval_seconds], wakes up some seconds late to a remote that may
    have changed, and refreshes with the default arguments; an exception
    of the refresh leaves the loop. *)
Fixpoint periodically_download_and_update_naan_registry_cache
         (interval_seconds : Z)
         (wakeups : list (nat * (string -> result Body)))
         (w : World) : result unit * World :=
  match wakeups with
  | [] => (Return tt, w)
  | (late, net) :: wakeups' =>
      let awake :=
        elapse (clock w + interval_seconds + Z.of_nat late) net w in
      match ensure_up_to_date_naan_registry_cache
              default_url default_interval false awake with
      | (Return _, w') =>
          periodically_download_and_update_naan_registry_cache
            interval_seconds wakeups' w'
      | (Raise e, w') => (Raise e, w')
      end
  end.

(** When no cache file is dated in the future and the task sleeps at least
    the default interval (its own default), no wake-up finds a fresh
    cache: every round that completes has issued a request. *)
Theorem periodic_task_always_downloads :
  forall (interval_seconds : Z)
         (wakeups : list (nat * (string -> result Body)))
         (w w' : World),
    default_interval <= interval_seconds ->
    (forall g, In g (data_dir w) -> st_mtime g <= clock w) ->
    periodically_download_and_update_naan_registry_cache
      interval_seconds wakeups w = (Return tt, w') ->
    requests w' = (requests w + List.length wakeups)%nat.
Proof.
  intros interval_seconds wakeups.
  induction wakeups as [|[late net] wakeups IH]; intros w w' Hi Hold Hrun.
  - injection Hrun as <-. simpl. lia.
  - simpl in Hrun.
    set (awake := elapse (clock w + interval_seconds + Z.of_nat late) net w)
      in *.
    destruct (ensure_up_to_date_naan_registry_cache
                default_url default_interval false awake)
      as [[[]|e] w1] eqn:E; [|discriminate].
    destruct (ensure_inv _ _ _ _ E) as (Hclock & Hreq & Hdir & _).
    assert (0 <= default_interval) as Hpos
        by (unfold default_interval; lia).
    assert (use_cache default_interval false
              (get_latest_naan_registry_cache_file awake) awake = false)
      as U.
    { destruct (get_latest_naan_registry_cache_file awake) as [p|]; auto.
      simpl. unfold is_cache_valid.
      destruct (stat p (data_dir awake)) as [f|] eqn:S; auto.
      apply stat_In in S as [Hin _]. simpl in Hin.
      apply Hold in Hin. apply Z.ltb_ge. simpl. lia. }
    rewrite U in Hreq. simpl in Hreq, Hclock.
    rewrite (IH w1 w' Hi); auto.
    + rewrite Hreq. simpl. lia.
    + intros g Hg. rewrite Hclock.
      destruct Hdir as [Hdir|[data Hdir]]; rewrite Hdir in Hg.
      * simpl in Hg. apply Hold in Hg. lia.
      * apply In_write in Hg as [->|Hg]; simpl; [lia|].
        simpl in Hg. apply Hold in Hg. lia.
Qed.

Lemma periodic_task_always_downloads_witness :
  requests
    (mkWorld 172805
       [mkFile 0 0 (Object [("data", JArray snapshot_a)]);
        mkFile 86400 86400 (Object [("data", JArray snapshot_a)]);
        mkFile 172805 172805 (Object [("data", JArray snapshot_b)])]
       (serving snapshot_b) 3
       [("data", JArray snapshot_b)] [("12025", T1); ("99999", T2)])
  = (requests
       (mkWorld 0 [mkFile 0 0 (Object [("data", JArray snapshot_a)])]
                (serving snapshot_a) 1
                [("data", JArray snapshot_a)] [("12025", T1)])
     + List.length [(0%nat, serving snapshot_a); (5%nat, serving snapshot_b)])%nat.
Proof.
  apply (@periodic_task_always_downloads
           default_interval
           [(0%nat, serving snapshot_a); (5%nat, serving snapshot_b)]
           (mkWorld 0 [mkFile 0 0 (Object [("data", JArray snapshot_a)])]
                    (serving snapshot_a) 1
                    [("data", JArray snapshot_a)] [("12025", T1)])).
  - lia.
  - intros g [<-|[]]. simpl. lia.
  - reflexivity.
Defined.

(** Whatever the interval and the outcome, the task issues at most one
    request per round. *)
Theorem periodic_task_request_bound :
  forall (interval_seconds : Z)
         (wakeups : list (nat * (string -> result Body)))
         (w : World),
    (requests (snd (periodically_download_and_update_naan_registry_cache
                      interval_seconds wakeups w))
     <= requests w + List.length wakeups)%nat /\
    (requests w
     <= requests (snd (periodically_download_and_update_naan_registry_cache
                         interval_seconds wakeups w)))%nat.
Proof.
  intros interval_seconds wakeups.
  induction wakeups as [|[late net] wakeups IH]; intros w; simpl.
  - lia.
  - set (awake := elapse (clock w + interval_seconds + Z.of_nat late) net w).
    destruct (ensure_up_to_date_naan_registry_cache
                default_url default_interval false awake)
      as [[u|e] w1] eqn:E;
      destruct (ensure_inv _ _ _ _ E) as (_ & Hreq & _);
      simpl in Hreq.
    + specialize (IH w1).
      destruct (use_cache default_interval false
                  (get_latest_naan_registry_cache_file awake) awake); lia.
    + simpl.
      destruct (use_cache default_interval false
                  (get_latest_naan_registry_cache_file awake) awake); lia.
Qed.

Lemma ensure_download_makes_fresh_witness :
  get_latest_naan_registry_cache_file
    (elapse 3600 unreachable
       (mkWorld 0 [mkFile 0 0 (Object [("data", JArray snapshot_a)])]
                (serving snapshot_a) 1
                [("data", JArray snapshot_a)] [("12025", T1)]))
  = Some (clock (startup 0 [] (serving snapshot_a)))
  /\ is_cache_valid (clock (startup 0 [] (serving snapshot_a)))
       default_interval
       (elapse 3600 unreachable
          (mkWorld 0 [mkFile 0 0 (Object [("data", JArray snapshot_a)])]
                   (serving snapshot_a) 1
                   [("data", JArray snapshot_a)] [("12025", T1)]))
     = true.
Proof.
  apply (@ensure_download_makes_fresh
           default_url default_interval
           (startup 0 [] (serving snapshot_a)) (Return tt)
           (mkWorld 0 [mkFile 0 0 (Object [("data", JArray snapshot_a)])]
                    (serving snapshot_a) 1
                    [("data", JArray snapshot_a)] [("12025", T1)])
           (Object [("data", JArray snapshot_a)])
           [("data", JArray snapshot_a)] 3600 unreachable).
  - constructor.
  - reflexivity.
  - reflexivity.
  - reflexivity.
  - reflexivity.
  - simpl. lia.
  - simpl. unfold default_interval. lia.
Defined.

End RegistryFurther.
